(** * TinyMPS: the uniform hash grid of the neighbour search (class [tiny_mps::Grid])

    A shallow embedding of the inline member functions of [Grid]
    (src/include/bubble_particles.h, second header of the file) and of the
    parts of the construction and query code that the header only declares.

    Conventions of the embedding.
    - A C++ [int] is a [Z], with the representable range [in_int].  The
      integer functions are embedded twice.  [toHash], [toIndex2] and
      [toIndex3] evaluate the expressions in [Z]: the value that C++ defines
      whenever no operation overflows.  [Int32.toHash], [Int32.toIndex2] and
      [Int32.toIndex3] evaluate them as 32-bit two's complement hardware does:
      sums and products wrap around, and a division traps on a zero divisor
      and on [INT_MIN / -1].  [Int32_toHash_wrap] relates the two.
    - A finite [double] is the rational number it denotes ([Q]).  Comparisons,
      minimum, maximum and the products with 0.0 and 1.0 are exact on finite
      doubles.  The position functions are embedded twice as well.
      [Double.toIndex] rounds the subtraction and the division to the nearest
      double, ties to even, as IEEE 754 binary64 arithmetic does, and converts
      to [int] only within its range.  [toIndex] takes both operations
      unrounded; it serves where only the branches of the code matter.
    - [std::unordered_map<int, std::pair<int, int>>] is a [gmap Z (Z * Z)];
      [std::vector] and the columns of an Eigen matrix are lists. *)

From Stdlib Require Import ZArith QArith Qround Qminmax Qabs Lia Reals Qreals Lra.
From Stdlib Require Lqa.
From stdpp Require Import base option list gmap.

Local Open Scope Z_scope.

(** ** Results of fallible code *)

Inductive fault : Type :=
  | DivisionByZero      (* integer division or remainder by 0 *)
  | OutOfRange          (* std::out_of_range, thrown by unordered_map::at *)
  | AssertionFailed     (* an Eigen assertion: empty reduction, size mismatch, bad index *)
  | NotFinite           (* a double operation whose result is not a finite double *)
  | DivisionOverflow    (* INT_MIN / -1 or INT_MIN % -1 *)
  | ConversionOverflow. (* a double converted to an int that cannot hold it *)

Inductive result (A : Type) : Type :=
  | Ok (a : A)
  | Fault (f : fault).
Arguments Ok {A} a.
Arguments Fault {A} f.

(** The error monad; sequencing is written [x ← r; k]. *)
#[global] Instance result_ret : MRet result := λ A a, Ok a.
#[global] Instance result_bind : MBind result := λ A B k r,
  match r with
  | Ok a => k a
  | Fault f => Fault f
  end.

(** ** Machine integers *)

Definition int_min : Z := - 2 ^ 31.
Definition int_max : Z := 2 ^ 31 - 1.
Definition in_int (z : Z) : Prop := int_min ≤ z ≤ int_max.

(** [a / b] and [a % b] on [int]. *)
Definition int_div (a b : Z) : result Z :=
  if b =? 0 then Fault DivisionByZero else Ok (a ÷ b).
Definition int_mod (a b : Z) : result Z :=
  if b =? 0 then Fault DivisionByZero else Ok (Z.rem a b).

(** ** Data *)

(** [Eigen::Vector3d]. *)
Record Vector3d : Type := Vec3 { vx : Q; vy : Q; vz : Q }.

(** Component [k] of a vector, [vec(k)]; only 0, 1 and 2 are indices. *)
Definition coeff (v : Vector3d) (k : nat) : Q :=
  match k with
  | O => vx v
  | S O => vy v
  | _ => vz v
  end.

(** The data members of [Grid].  [coordinates] is a 3 x N matrix, kept as the
    list of its N columns; [grid_number] is [int grid_number[3]]. *)
Record Grid : Type := MkGrid {
  dimension : Z;
  size : Z;
  grid_width : Q;
  coordinates : list Vector3d;
  valid_coordinates : list bool;
  higher_bounds : Vector3d;
  lower_bounds : Vector3d;
  grid_number : Z * Z * Z;
  grid_hash : list (Z * Z);          (* hash, index *)
  begin_hash : gmap Z (Z * Z)        (* hash ↦ begin(order), end(order) *)
}.

Definition grid_number0 (g : Grid) : Z := (grid_number g).1.1.
Definition grid_number1 (g : Grid) : Z := (grid_number g).1.2.
Definition grid_number2 (g : Grid) : Z := (grid_number g).2.

Definition getGridNumberX (g : Grid) : Z := grid_number0 g.
Definition getGridNumberY (g : Grid) : Z := grid_number1 g.
Definition getGridNumberZ (g : Grid) : Z :=
  if dimension g =? 2 then 0 else grid_number2 g.

(** ** Cell indexer: integer part *)

(** [toHash(int index_x, int index_y)]. *)
Definition toHash2 (g : Grid) (index_x index_y : Z) : Z :=
  index_x + index_y * grid_number0 g.

(** [toHash(int index_x, int index_y, int index_z)]. *)
Definition toHash (g : Grid) (index_x index_y index_z : Z) : Z :=
  if dimension g =? 2 then toHash2 g index_x index_y
  else index_x + index_y * grid_number0 g
       + index_z * grid_number1 g * grid_number0 g.

(** [toIndex(int hash, int& dx, int& dy)]; the result is [(dx, dy)]. *)
Definition toIndex2 (g : Grid) (hash : Z) : result (Z * Z) :=
  dy ← int_div hash (grid_number0 g);
  dx ← int_mod hash (grid_number0 g);
  Ok (dx, dy).

(** [toIndex(int hash, int& dx, int& dy, int& dz)]; the result is
    [(dx, dy, dz)]. *)
Definition toIndex3 (g : Grid) (hash : Z) : result (Z * Z * Z) :=
  if dimension g =? 2 then
    '(dx, dy) ← toIndex2 g hash;
    Ok (dx, dy, 0)
  else
    dz ← int_div hash (grid_number1 g * grid_number0 g);
    r ← int_mod hash (grid_number1 g * grid_number0 g);
    dy ← int_div r (grid_number0 g);
    r' ← int_mod hash (grid_number1 g * grid_number0 g);
    dx ← int_mod r' (grid_number0 g);
    Ok (dx, dy, dz).

(** ** Bucket lookup *)

(** [begin_hash.at(hash)]: throws [std::out_of_range] on a missing key. *)
Definition map_at (m : gmap Z (Z * Z)) (hash : Z) : result (Z * Z) :=
  match m !! hash with
  | Some p => Ok p
  | None => Fault OutOfRange
  end.

(** [begin_hash.empty()]. *)
Definition map_empty (m : gmap Z (Z * Z)) : bool :=
  bool_decide (m = ∅).

(** [begin_hash.find(hash) == begin_hash.end()]. *)
Definition find_is_end (m : gmap Z (Z * Z)) (hash : Z) : bool :=
  bool_decide (m !! hash = None).

(** [getGridHashBegin(int hash, int& begin, int& end)]; the result is
    [(begin, end)]. *)
Definition getGridHashBegin (g : Grid) (hash : Z) : result (Z * Z) :=
  if map_empty (begin_hash g) then Ok (-1, -1)
  else if find_is_end (begin_hash g) hash then Ok (-1, -1)
  else
    p ← map_at (begin_hash g) hash;
    q ← map_at (begin_hash g) hash;
    Ok (p.1, q.2).

(** ** Bounds calculator *)

(** [valid_coordinates.cast<double>()] on one entry. *)
Definition cast_double (b : bool) : Q := if b then 1%Q else 0%Q.

(** One column of [coordinates.array().rowwise() * mask.transpose().array()]:
    every entry of column [j] is multiplied by [mask(j)]. *)
Definition scale_column (c : Vector3d) (b : bool) : Vector3d :=
  Vec3 (vx c * cast_double b) (vy c * cast_double b) (vz c * cast_double b).

(** The broadcast product; Eigen asserts that the mask has one entry per
    column. *)
Definition masked (cols : list Vector3d) (mask : list bool) : result (list Vector3d) :=
  if bool_decide (length cols = length mask)
  then Ok (zip_with scale_column cols mask)
  else Fault AssertionFailed.

(** Row [k] of a matrix given by its columns. *)
Definition row (k : nat) (cols : list Vector3d) : list Q :=
  map (λ c, coeff c k) cols.

(** [maxCoeff()] and [minCoeff()] of one row: the first entry, then every
    later entry that is strictly greater (smaller) replaces the running value;
    Eigen asserts that the row is not empty. *)
Definition maxCoeff (r : list Q) : result Q :=
  match r with
  | [] => Fault AssertionFailed
  | x :: r' => Ok (foldl Qmax x r')
  end.

Definition minCoeff (r : list Q) : result Q :=
  match r with
  | [] => Fault AssertionFailed
  | x :: r' => Ok (foldl Qmin x r')
  end.

(** [getMaxCoordinates(Eigen::Vector3d& answer)]; the result is [answer]. *)
Definition getMaxCoordinates (g : Grid) : result Vector3d :=
  m ← masked (coordinates g) (valid_coordinates g);
  x ← maxCoeff (row 0 m);
  y ← maxCoeff (row 1 m);
  z ← maxCoeff (row 2 m);
  Ok (Vec3 x y z).

(** [getMinCoordinates(Eigen::Vector3d& answer)]; the result is [answer]. *)
Definition getMinCoordinates (g : Grid) : result Vector3d :=
  m ← masked (coordinates g) (valid_coordinates g);
  x ← minCoeff (row 0 m);
  y ← minCoeff (row 1 m);
  z ← minCoeff (row 2 m);
  Ok (Vec3 x y z).

(** ** Cell indexer: from a position *)

(** [a / b] on finite doubles; the quotient by 0.0 is not finite, and its
    conversion to [int] is undefined. *)
Definition double_div (a b : Q) : result Q :=
  if Qeq_bool b 0 then Fault NotFinite else Ok (a / b)%Q.

(** [std::ceil(x)] assigned to an [int]. *)
Definition ceil_to_int (x : Q) : Z := Qceiling x.

(** The cell index along one axis:
    [std::ceil((vec(k) - lower_bounds(k)) / grid_width)]. *)
Definition axis_index (g : Grid) (vec : Vector3d) (k : nat) : result Z :=
  q ← double_div (coeff vec k - coeff (lower_bounds g) k)%Q (grid_width g);
  Ok (ceil_to_int q).

(** [toIndex(const Eigen::Vector3d& vec, int& dx, int& dy, int& dz)]; the
    result is [(dx, dy, dz)]. *)
Definition toIndex (g : Grid) (vec : Vector3d) : result (Z * Z * Z) :=
  dx ← axis_index g vec 0;
  dy ← axis_index g vec 1;
  dz ← (if dimension g =? 3 then axis_index g vec 2 else Ok 0);
  Ok (dx, dy, dz).

(** [toHash(const Eigen::Vector3d& vec)]. *)
Definition toHashVec (g : Grid) (vec : Vector3d) : result Z :=
  '(dx, dy, dz) ← toIndex g vec;
  Ok (toHash g dx dy dz).

(** ** The integer functions on 32-bit hardware *)

Module Int32.

(** The two's complement value of the low 32 bits of [z]. *)
Definition wrap (z : Z) : Z := (z + 2 ^ 31) mod 2 ^ 32 - 2 ^ 31.

(** [a + b] and [a * b] on [int]. *)
Definition add (a b : Z) : Z := wrap (a + b).
Definition mul (a b : Z) : Z := wrap (a * b).

(** [a / b] and [a % b] on [int]: the division instruction traps on a zero
    divisor and on [INT_MIN / -1], whose quotient no [int] holds. *)
Definition div (a b : Z) : result Z :=
  if b =? 0 then Fault DivisionByZero
  else if (a =? int_min) && (b =? -1) then Fault DivisionOverflow
  else Ok (a ÷ b).
Definition rem (a b : Z) : result Z :=
  if b =? 0 then Fault DivisionByZero
  else if (a =? int_min) && (b =? -1) then Fault DivisionOverflow
  else Ok (Z.rem a b).

(** [toHash(int index_x, int index_y)]. *)
Definition toHash2 (g : Grid) (index_x index_y : Z) : Z :=
  add index_x (mul index_y (grid_number0 g)).

(** [toHash(int index_x, int index_y, int index_z)]. *)
Definition toHash (g : Grid) (index_x index_y index_z : Z) : Z :=
  if dimension g =? 2 then toHash2 g index_x index_y
  else add (add index_x (mul index_y (grid_number0 g)))
           (mul (mul index_z (grid_number1 g)) (grid_number0 g)).

(** [toIndex(int hash, int& dx, int& dy)]; the result is [(dx, dy)]. *)
Definition toIndex2 (g : Grid) (hash : Z) : result (Z * Z) :=
  dy ← div hash (grid_number0 g);
  dx ← rem hash (grid_number0 g);
  Ok (dx, dy).

(** [toIndex(int hash, int& dx, int& dy, int& dz)]; the result is
    [(dx, dy, dz)]. *)
Definition toIndex3 (g : Grid) (hash : Z) : result (Z * Z * Z) :=
  if dimension g =? 2 then
    '(dx, dy) ← toIndex2 g hash;
    Ok (dx, dy, 0)
  else
    dz ← div hash (mul (grid_number1 g) (grid_number0 g));
    r ← rem hash (mul (grid_number1 g) (grid_number0 g));
    dy ← div r (grid_number0 g);
    r' ← rem hash (mul (grid_number1 g) (grid_number0 g));
    dx ← rem r' (grid_number0 g);
    Ok (dx, dy, dz).

(** [toHash] on a triple. *)
Definition toHash_triple (g : Grid) (c : Z * Z * Z) : Z :=
  let '(x, y, z) := c in toHash g x y z.

End Int32.

(** ** The position functions in double arithmetic *)

Module Double.

(** A double: a finite one, given by the rational number it denotes, or one
    that is not finite, an infinity or a NaN. *)
Inductive double : Type :=
  | Finite (q : Q)
  | NotFinite.

(** The exponent of the leading bit of a positive rational: the [e] with
    [2^e <= a < 2^(e+1)]. *)
Definition floor_log2 (a : Q) : Z :=
  let e := Z.log2 (Qnum a) - Z.log2 (Zpos (Qden a)) in
  if Qle_bool (2 ^ e) a then e else e - 1.

(** The integer nearest to a rational that is not negative; of two that are
    equally near, the even one. *)
Definition nearest_even (m : Q) : Z :=
  let f := Qfloor m in
  match (m - inject_Z f ?= 1 # 2)%Q with
  | Lt => f
  | Gt => f + 1
  | Eq => if Z.even f then f else f + 1
  end.

(** The binary64 number nearest to [q], ties to even: 53 significant bits,
    the unit in the last place no smaller than [2^-1074]; a result of
    magnitude [2^1024] or more is an infinity. *)
Definition round (q : Q) : double :=
  if Qeq_bool q 0 then Finite 0
  else
    let a := Qabs.Qabs q in
    let t := Z.max (floor_log2 a - 52) (-1074) in
    let r := (inject_Z (nearest_even (a / 2 ^ t)) * 2 ^ t)%Q in
    if Qle_bool (2 ^ 1024) r then NotFinite
    else Finite (Qred (if Qle_bool 0 q then r else - r)).

(** [a - b] on finite doubles. *)
Definition sub (a b : Q) : double := round (a - b).

(** [a / b] for a finite divisor: the quotient of a double that is not finite
    is not finite, and the quotient by 0.0 is an infinity or a NaN. *)
Definition div (a : double) (b : Q) : double :=
  match a with
  | Finite a' => if Qeq_bool b 0 then NotFinite else round (a' / b)
  | NotFinite => NotFinite
  end.

(** [std::ceil(x)] assigned to an [int].  [std::ceil] is exact; the
    conversion is undefined unless the value is finite and the [int] can hold
    it (the conversion instruction of x86-64 then gives [INT_MIN]). *)
Definition ceil_to_int (x : double) : result Z :=
  match x with
  | Finite q =>
      if bool_decide (in_int (Qceiling q)) then Ok (Qceiling q)
      else Fault ConversionOverflow
  | NotFinite => Fault ConversionOverflow
  end.

(** The double [(vec(k) - lower_bounds(k)) / grid_width]. *)
Definition scaled_offset (g : Grid) (vec : Vector3d) (k : nat) : double :=
  div (sub (coeff vec k) (coeff (lower_bounds g) k)) (grid_width g).

(** The cell index along one axis:
    [std::ceil((vec(k) - lower_bounds(k)) / grid_width)], assigned to an
    [int]. *)
Definition axis_index (g : Grid) (vec : Vector3d) (k : nat) : result Z :=
  ceil_to_int (scaled_offset g vec k).

(** [toIndex(const Eigen::Vector3d& vec, int& dx, int& dy, int& dz)]; the
    result is [(dx, dy, dz)]. *)
Definition toIndex (g : Grid) (vec : Vector3d) : result (Z * Z * Z) :=
  dx ← axis_index g vec 0;
  dy ← axis_index g vec 1;
  dz ← (if dimension g =? 3 then axis_index g vec 2 else Ok 0);
  Ok (dx, dy, dz).

(** The double nearest to a rational, 0 when it is not finite. *)
Definition nearest (q : Q) : Q :=
  match round q with
  | Finite r => r
  | NotFinite => 0%Q
  end.

End Double.

(** ** Construction and queries

    The header declares the constructor, [setHash], [getNeighbors] and
    [getNeighborsInBox]; their bodies are in a translation unit that is not
    part of the sources at hand.  The definitions of this part follow the
    specification (sections 3, 4.3 and 4.4) and call the inline functions
    above wherever the specification names them. *)

(** [coordinates.col(i)]; Eigen asserts that [i] is a column. *)
Definition col (g : Grid) (i : Z) : result Vector3d :=
  if i <? 0 then Fault AssertionFailed
  else match coordinates g !! Z.to_nat i with
       | Some c => Ok c
       | None => Fault AssertionFailed
       end.

(** Modelled from the spec: the first half of the bucket builder, missing with
    the body of [setHash].  "For every valid particle, compute its hash via the
    Cell Indexer; invalid particles are excluded entirely (not hashed, not
    stored)."  [i] is the index of the first column of [cols]. *)
Fixpoint hash_pairs (g : Grid) (i : Z) (cols : list Vector3d) (mask : list bool)
    : result (list (Z * Z)) :=
  match cols, mask with
  | c :: cols', v :: mask' =>
      if v then
        h ← toHashVec g c;
        rest ← hash_pairs g (i + 1) cols' mask';
        Ok ((h, i) :: rest)
      else hash_pairs g (i + 1) cols' mask'
  | _, _ => Ok []
  end.

(** Modelled from the spec: the sort of the bucket builder, missing with the
    body of [setHash].  "Produce sortedBuckets by stable-sorting (hash, index)
    pairs by hash ascending."  A stable sort is a function of its input alone,
    whatever the algorithm; here a pair is inserted in front of the first pair
    whose hash is not smaller, from the last pair of the input to the first. *)
Fixpoint insert_by_hash (p : Z * Z) (l : list (Z * Z)) : list (Z * Z) :=
  match l with
  | [] => [p]
  | q :: l' => if p.1 <=? q.1 then p :: q :: l' else q :: insert_by_hash p l'
  end.

Definition sort_by_hash (l : list (Z * Z)) : list (Z * Z) :=
  foldr insert_by_hash [] l.

(** Modelled from the spec: the scan of the bucket builder, missing with the
    body of [setHash].  "Produce hashRanges by a single linear scan of
    sortedBuckets, recording for each distinct hash the contiguous (begin, end)
    offsets where it appears", the pair "denoting the half-open slice of
    sortedBuckets".  [n] is the offset of the first element of [l]. *)
Fixpoint scan_ranges (n : Z) (l : list (Z * Z)) (m : gmap Z (Z * Z)) : gmap Z (Z * Z) :=
  match l with
  | [] => m
  | (h, _) :: l' =>
      let b := match m !! h with
               | Some (b, _) => b
               | None => n
               end in
      scan_ranges (n + 1) l' (<[h := (b, n + 1)]> m)
  end.

(** Modelled from the spec: [setHash], declared in the header, body missing.
    It fills [grid_hash] and [begin_hash] of a grid whose other members are
    set. *)
Definition setHash (g : Grid) : result Grid :=
  pairs ← hash_pairs g 0 (coordinates g) (valid_coordinates g);
  let sorted := sort_by_hash pairs in
  Ok (MkGrid (dimension g) (size g) (grid_width g) (coordinates g)
        (valid_coordinates g) (higher_bounds g) (lower_bounds g) (grid_number g)
        sorted (scan_ranges 0 sorted ∅)).

(** Modelled from the spec: the constructor [Grid(grid_width, coordinates,
    valid_coordinates, dimension)], declared in the header, body missing.
    Bounds first, then the cell counts, then the buckets.  The spec derives
    the cell count of an axis "from (upperBound-lowerBound)/cellWidth" and does
    not fix the rounding: [cell_count] is that derivation. *)
Definition Grid_new (cell_count : Q → Z) (width : Q) (cols : list Vector3d)
    (mask : list bool) (dim : Z) : result Grid :=
  let g0 := MkGrid dim (Z.of_nat (length cols)) width cols mask
              (Vec3 0 0 0) (Vec3 0 0 0) (0, 0, 0) [] ∅ in
  hi ← getMaxCoordinates g0;
  lo ← getMinCoordinates g0;
  nx ← double_div (vx hi - vx lo)%Q width;
  ny ← double_div (vy hi - vy lo)%Q width;
  nz ← double_div (vz hi - vz lo)%Q width;
  setHash (MkGrid dim (Z.of_nat (length cols)) width cols mask hi lo
             (cell_count nx, cell_count ny, cell_count nz) [] ∅).

(** [grid_hash[n].second]; an offset outside the vector is out of contract. *)
Definition sorted_index (g : Grid) (n : Z) : result Z :=
  if n <? 0 then Fault AssertionFailed
  else match grid_hash g !! Z.to_nat n with
       | Some p => Ok p.2
       | None => Fault AssertionFailed
       end.

(** [for (n = begin; n < end; ++n)] over the sorted vector, [k] iterations
    left. *)
Fixpoint slice_indices (g : Grid) (n : Z) (k : nat) : result (list Z) :=
  match k with
  | O => Ok []
  | S k' =>
      j ← sorted_index g n;
      rest ← slice_indices g (n + 1) k';
      Ok (j :: rest)
  end.

(** Modelled from the spec: the members of one probed cell.  "For each, if
    present in hashRanges, append every particle index in that bucket range";
    an absent hash gives the range [(-1, -1)], which has no offset in it. *)
Definition cell_members (g : Grid) (hash : Z) : result (list Z) :=
  '(b, e) ← getGridHashBegin g hash;
  slice_indices g b (Z.to_nat (e - b)).

(** Modelled from the spec: "all 3^dimension neighboring cell triples
    (including the particle's own cell)". *)
Definition neighbor_cells (g : Grid) (c : Z * Z * Z) : list (Z * Z * Z) :=
  let '(ix, iy, iz) := c in
  if dimension g =? 2 then
    y ← [iy - 1; iy; iy + 1];
    x ← [ix - 1; ix; ix + 1];
    [(x, y, iz)]
  else
    z ← [iz - 1; iz; iz + 1];
    y ← [iy - 1; iy; iy + 1];
    x ← [ix - 1; ix; ix + 1];
    [(x, y, z)].

(** Modelled from the spec: "A visited neighboring cell triple that falls
    outside [0, cellCount) on any axis" is "treated as containing no particles";
    the z axis takes part in three dimensions only. *)
Definition in_extent (g : Grid) (c : Z * Z * Z) : bool :=
  let '(x, y, z) := c in
  bool_decide (0 ≤ x < getGridNumberX g) &&
  bool_decide (0 ≤ y < getGridNumberY g) &&
  ((dimension g =? 2) || bool_decide (0 ≤ z < grid_number2 g)).

(** The members of a list of cells, cell after cell. *)
Fixpoint scan_cells (g : Grid) (cells : list (Z * Z * Z)) : result (list Z) :=
  match cells with
  | [] => Ok []
  | (x, y, z) :: cells' =>
      here ← (if in_extent g (x, y, z) then cell_members g (toHash g x y z)
              else Ok []);
      rest ← scan_cells g cells';
      Ok (here ++ rest)
  end.

(** Modelled from the spec: [getNeighborsInBox(index, neighbors)], declared in
    the header, body missing; the result is the content of [neighbors] on
    return.  A query index outside [0, size) is a precondition violation. *)
Definition getNeighborsInBox (g : Grid) (index : Z) : result (list Z) :=
  if bool_decide (0 ≤ index < size g) then
    c ← col g index;
    cell ← toIndex g c;
    scan_cells g (neighbor_cells g cell)
  else Fault AssertionFailed.

(** [a - b] on vectors and the squared norm. *)
Definition vsub (a b : Vector3d) : Vector3d :=
  Vec3 (vx a - vx b) (vy a - vy b) (vz a - vz b).
Definition squaredNorm (v : Vector3d) : Q :=
  (vx v * vx v + vy v * vy v + vz v * vz v)%Q.

(** "The distance exceeds cellWidth", decided on rationals: the norm [d] of
    [v] has [d > r] exactly when [r < 0] or [d * d > r * r]. *)
Definition norm_exceeds (v : Vector3d) (r : Q) : bool :=
  negb (Qle_bool 0 r && Qle_bool (squaredNorm v) (r * r)).

(** Modelled from the spec: the filter of [getNeighbors], which "computes the
    true Euclidean distance between the query particle and each candidate and
    discards candidates whose distance exceeds cellWidth". *)
Fixpoint keep_within (g : Grid) (c : Vector3d) (cands : list Z) : result (list Z) :=
  match cands with
  | [] => Ok []
  | j :: cands' =>
      cj ← col g j;
      rest ← keep_within g c cands';
      Ok (if norm_exceeds (vsub cj c) (grid_width g) then rest else j :: rest)
  end.

(** Modelled from the spec: [getNeighbors(index, neighbors)], declared in the
    header, body missing: "same cell traversal as above", then the filter. *)
Definition getNeighbors (g : Grid) (index : Z) : result (list Z) :=
  if bool_decide (0 ≤ index < size g) then
    c ← col g index;
    cell ← toIndex g c;
    cands ← scan_cells g (neighbor_cells g cell);
    keep_within g c cands
  else Fault AssertionFailed.

(** ** Notions used in the statements *)

(** The axes that take part in the hash: x and y, and z unless the grid is
    two-dimensional.  A triple is in range when its index on every such axis
    lies in [0, grid_number). *)
Definition in_range (g : Grid) (c : Z * Z * Z) : Prop :=
  let '(x, y, z) := c in
  0 ≤ x < grid_number0 g ∧ 0 ≤ y < grid_number1 g ∧
  (dimension g ≠ 2 → 0 ≤ z < grid_number2 g).

(** A triple as seen on the axes that take part: in two dimensions the z
    index is 0. *)
Definition participating (g : Grid) (c : Z * Z * Z) : Z * Z * Z :=
  let '(x, y, z) := c in
  if dimension g =? 2 then (x, y, 0) else (x, y, z).

(** [toHash] on a triple. *)
Definition toHash_triple (g : Grid) (c : Z * Z * Z) : Z :=
  let '(x, y, z) := c in toHash g x y z.

(** A grid with the given dimension and cell counts; the other members are
    those of an empty grid. *)
Definition grid_of_counts (dim : Z) (n : Z * Z * Z) : Grid :=
  MkGrid dim 0 1 [] [] (Vec3 0 0 0) (Vec3 0 0 0) n [] ∅.

(** The entries that take part in the bounds along axis [k], as the code has
    them: a valid column contributes its coordinate, a masked-out column
    contributes 0. *)
Definition contributions (g : Grid) (k : nat) : list Q :=
  zip_with (λ c (b : bool), if b then coeff c k else 0%Q)
    (coordinates g) (valid_coordinates g).

(** The coordinates of the valid columns along axis [k], and nothing else. *)
Definition valid_entries (g : Grid) (k : nat) : list Q :=
  (λ cb : Vector3d * bool, coeff cb.1 k)
    <$> filter (λ cb : Vector3d * bool, cb.2 = true)
          (zip (coordinates g) (valid_coordinates g)).

(** [m] is the maximum (minimum) of the values of [l]. *)
Definition is_max (m : Q) (l : list Q) : Prop :=
  (∃ x, x ∈ l ∧ (x == m)%Q) ∧ ∀ x, x ∈ l → (x <= m)%Q.
Definition is_min (m : Q) (l : list Q) : Prop :=
  (∃ x, x ∈ l ∧ (x == m)%Q) ∧ ∀ x, x ∈ l → (m <= x)%Q.

(** Equality of vectors as numbers, component by component. *)
Definition vec_eq (a b : Vector3d) : Prop :=
  (vx a == vx b)%Q ∧ (vy a == vy b)%Q ∧ (vz a == vz b)%Q.

(** [n] is the least integer that is not below [q]. *)
Definition is_ceiling (n : Z) (q : Q) : Prop :=
  (inject_Z n - 1 < q)%Q ∧ (q <= inject_Z n)%Q.

(** A grid that holds the given particles and nothing else yet: the state in
    which the bounds are computed. *)
Definition grid_of_particles (dim : Z) (cols : list Vector3d) (mask : list bool)
    : Grid :=
  MkGrid dim (Z.of_nat (length cols)) 1 cols mask
    (Vec3 0 0 0) (Vec3 0 0 0) (0, 0, 0) [] ∅.

(** One derivation of the cell count of an axis from its extent in cell
    widths: the cells 0 to [ceil(extent)]. *)
Definition count_cells (q : Q) : Z := Qceiling q + 1.

(** The grid of a construction that succeeds. *)
Definition constructed (r : result Grid) : Grid :=
  match r with
  | Ok g => g
  | Fault _ => grid_of_counts 0 (0, 0, 0)
  end.

(** Scenarios of the specification, in two dimensions with cell width 1:
    particles at (0,0), (0.5,0) and (2,0), all valid, and the same with
    particle 1 masked out. *)
Definition scenario_particles : list Vector3d :=
  [Vec3 0 0 0; Vec3 (1 # 2) 0 0; Vec3 2 0 0].
Definition scenario_all_valid : Grid :=
  constructed (Grid_new count_cells 1 scenario_particles [true; true; true] 2).
Definition scenario_one_ghost : Grid :=
  constructed (Grid_new count_cells 1 scenario_particles [true; false; true] 2).

(** The Euclidean norm of a vector and the Euclidean distance of two
    positions, as real numbers. *)
Definition norm (v : Vector3d) : R := sqrt (Q2R (squaredNorm v)).
Definition distance (a b : Vector3d) : R := norm (vsub a b).

(** The particle indices that the sorted vector holds. *)
Definition stored (g : Grid) (j : Z) : Prop := j ∈ (grid_hash g).*2.

(** Entry [j] of the validity mask is true. *)
Definition valid_at (mask : list bool) (j : Z) : Prop :=
  0 ≤ j ∧ mask !! Z.to_nat j = Some true.

(** The number of cells on the axes that take part in the hash. *)
Definition cell_total (g : Grid) : Z :=
  if dimension g =? 2 then grid_number1 g * grid_number0 g
  else grid_number2 g * (grid_number1 g * grid_number0 g).

(** A grid with the given dimension, lower bounds and cell width; the other
    members are those of an empty grid. *)
Definition grid_of_frame (dim : Z) (lb : Vector3d) (w : Q) : Grid :=
  MkGrid dim 0 w [] [] (Vec3 0 0 0) lb (0, 0, 0) [] ∅.

(** Along axis [k], [n] is the ceiling of the double
    [(vec(k) - lower_bounds(k)) / grid_width], and an [int] holds it. *)
Definition rounded_cell (g : Grid) (vec : Vector3d) (k : nat) (n : Z) : Prop :=
  ∃ q, Double.scaled_offset g vec k = Double.Finite q ∧
       is_ceiling n q ∧ in_int n.

(** * Properties *)

(** ** Integer part of the cell indexer *)

Lemma int_div_ok a b : b ≠ 0 → int_div a b = Ok (a ÷ b).
Proof. intros Hb. unfold int_div. by destruct (Z.eqb_spec b 0). Qed.

Lemma int_mod_ok a b : b ≠ 0 → int_mod a b = Ok (Z.rem a b).
Proof. intros Hb. unfold int_mod. by destruct (Z.eqb_spec b 0). Qed.

(** Runs the integer divisions of a monadic computation whose divisors are
    known to differ from 0. *)
Ltac run_int :=
  repeat (first [rewrite int_div_ok by done | rewrite int_mod_ok by done];
          cbn [mbind result_bind]).

Lemma toIndex2_ok g hash :
  grid_number0 g ≠ 0 →
  toIndex2 g hash = Ok (Z.rem hash (grid_number0 g), hash ÷ grid_number0 g).
Proof.
  intros Hn. unfold toIndex2. by run_int.
Qed.

Lemma toIndex3_ok g hash :
  dimension g ≠ 2 → grid_number0 g ≠ 0 → grid_number1 g ≠ 0 →
  toIndex3 g hash =
    Ok (Z.rem (Z.rem hash (grid_number1 g * grid_number0 g)) (grid_number0 g),
        Z.rem hash (grid_number1 g * grid_number0 g) ÷ grid_number0 g,
        hash ÷ (grid_number1 g * grid_number0 g)).
Proof.
  intros Hd H0 H1. unfold toIndex3.
  destruct (Z.eqb_spec (dimension g) 2) as [|_]; [done|].
  assert (grid_number1 g * grid_number0 g ≠ 0) by lia.
  by run_int.
Qed.

(** The truncated quotient and remainder never leave the range of [int] when
    the divisor is positive. *)
Lemma quot_rem_in_int a b :
  0 < b → in_int a → in_int b →
  in_int (a ÷ b) ∧ in_int (Z.rem a b) ∧ in_int (a ÷ b * b) ∧
  in_int (Z.rem a b + a ÷ b * b).
Proof.
  unfold in_int, int_min, int_max. intros Hb Ha Hbi.
  pose proof (Z.quot_rem' a b) as Hqr.
  destruct (Z.le_gt_cases 0 a) as [Hpos|Hneg].
  - pose proof (Z.quot_pos a b Hpos Hb).
    pose proof (Z.rem_bound_pos a b Hpos Hb).
    nia.
  - pose proof (Z.rem_bound_pos_neg a b Hb (Z.lt_le_incl _ _ Hneg)) as Hr.
    nia.
Qed.

(** C9.  In two dimensions the inverse followed by the hash is the identity
    on every integer, negative ones included, as soon as [grid_number[0] > 0]:
    [toIndex(hash, dx, dy)] sets [dx = hash % Nx] and [dy = hash / Nx], and
    [toHash(dx, dy) = dx + dy*Nx] is [hash] again.  For operands in the range
    of [int] no intermediate result leaves that range. *)
Theorem toHash2_toIndex2 (g : Grid) (hash : Z) :
  0 < grid_number0 g →
  ∃ dx dy,
    toIndex2 g hash = Ok (dx, dy) ∧
    dx = Z.rem hash (grid_number0 g) ∧ dy = hash ÷ grid_number0 g ∧
    toHash2 g dx dy = hash ∧
    (in_int hash → in_int (grid_number0 g) →
     in_int dx ∧ in_int dy ∧ in_int (dy * grid_number0 g)).
Proof.
  intros Hn. eexists _, _. split; [apply toIndex2_ok; lia|].
  split; [done|]. split; [done|]. split.
  - unfold toHash2. pose proof (Z.quot_rem' hash (grid_number0 g)). lia.
  - intros Hh Hi. destruct (quot_rem_in_int hash _ Hn Hh Hi) as (?&?&?&?).
    done.
Qed.

Lemma toHash2_toIndex2_witness :
  ∃ dx dy,
    toIndex2 (grid_of_counts 2 (4, 5, 1)) (-7) = Ok (dx, dy) ∧
    dx = -3 ∧ dy = -1 ∧ toHash2 (grid_of_counts 2 (4, 5, 1)) dx dy = -7.
Proof.
  destruct (toHash2_toIndex2 (grid_of_counts 2 (4, 5, 1)) (-7))
    as (dx & dy & H1 & H2 & H3 & H4 & _); [reflexivity|].
  exists dx, dy. repeat split; assumption.
Defined.

(** The offset of a cell within its plane is below the size of the plane. *)
Lemma offset_in_plane (x y nx ny : Z) :
  0 ≤ x < nx → 0 ≤ y < ny → 0 ≤ x + y * nx < ny * nx.
Proof. intros Hx Hy. nia. Qed.

(** The inverse undoes the hash on the axes that take part. *)
Lemma toIndex3_toHash (g : Grid) (c : Z * Z * Z) :
  in_range g c →
  toIndex3 g (toHash_triple g c) = Ok (participating g c).
Proof.
  destruct c as [[x y] z]. unfold in_range, participating, toHash_triple.
  intros (Hx & Hy & Hz).
  destruct (Z.eqb_spec (dimension g) 2) as [Hd|Hd].
  - unfold toIndex3, toHash. destruct (Z.eqb_spec (dimension g) 2); [|done].
    rewrite toIndex2_ok by lia. cbn. unfold toHash2.
    rewrite Z.rem_mod_nonneg, Z.quot_div_nonneg by nia.
    rewrite Z.mod_add, Z.div_add, Z.mod_small, Z.div_small by lia.
    repeat f_equal; lia.
  - specialize (Hz Hd). rewrite toIndex3_ok by lia. unfold toHash.
    destruct (Z.eqb_spec (dimension g) 2); [done|].
    generalize dependent (grid_number1 g). generalize dependent (grid_number0 g).
    intros nx Hx ny Hy.
    pose proof (offset_in_plane x y nx ny Hx Hy) as Hlow.
    replace (x + y * nx + z * ny * nx) with (x + y * nx + z * (ny * nx)) by lia.
    assert (0 ≤ z * (ny * nx)) by (apply Z.mul_nonneg_nonneg; lia).
    set (h := x + y * nx + z * (ny * nx)).
    assert (Z.rem h (ny * nx) = x + y * nx) as ->.
    { rewrite Z.rem_mod_nonneg by lia. unfold h.
      rewrite Z.mod_add by lia. apply Z.mod_small; lia. }
    assert (h ÷ (ny * nx) = z) as ->.
    { rewrite Z.quot_div_nonneg by lia. unfold h.
      rewrite Z.div_add by lia. rewrite Z.div_small; lia. }
    rewrite Z.rem_mod_nonneg, Z.quot_div_nonneg by lia.
    rewrite Z.mod_add, Z.div_add, Z.mod_small, Z.div_small by lia.
    repeat f_equal; lia.
Qed.

(** X14.  On a grid whose number of cells fits an [int], hashing an in-range
    triple overflows nowhere: every intermediate result of [toHash] and the
    hash itself are in the range of [int]. *)
Lemma toHash_in_int (g : Grid) (x y z : Z) :
  in_range g (x, y, z) → dimension g ≠ 2 →
  grid_number2 g * (grid_number1 g * grid_number0 g) ≤ int_max →
  in_int (y * grid_number0 g) ∧ in_int (x + y * grid_number0 g) ∧
  in_int (z * grid_number1 g) ∧ in_int (z * grid_number1 g * grid_number0 g) ∧
  in_int (toHash g x y z).
Proof.
  intros (Hx & Hy & Hz) Hd. specialize (Hz Hd). unfold toHash.
  destruct (Z.eqb_spec (dimension g) 2); [done|].
  unfold in_int, int_min, int_max.
  generalize dependent (grid_number2 g). generalize dependent (grid_number1 g).
  generalize dependent (grid_number0 g). intros nx Hx ny Hy nz Hz Hcells.
  pose proof (offset_in_plane x y nx ny Hx Hy) as Hlow.
  pose proof (offset_in_plane (x + y * nx) z (ny * nx) nz Hlow Hz) as Hall.
  assert (0 ≤ y * nx) by (apply Z.mul_nonneg_nonneg; lia).
  assert (0 ≤ z * ny) by (apply Z.mul_nonneg_nonneg; lia).
  assert (0 ≤ z * (ny * nx)) by (apply Z.mul_nonneg_nonneg; lia).
  assert (z * ny ≤ z * (ny * nx)) by (apply Z.mul_le_mono_nonneg_l; nia).
  replace (z * ny * nx) with (z * (ny * nx)) by ring.
  lia.
Qed.

(** ** Bucket lookup *)

Lemma getGridHashBegin_absent (g : Grid) (hash : Z) :
  begin_hash g !! hash = None → getGridHashBegin g hash = Ok (-1, -1).
Proof.
  intros Hnone. unfold getGridHashBegin, find_is_end.
  destruct (map_empty (begin_hash g)); [done|].
  by rewrite bool_decide_eq_true_2.
Qed.

Lemma getGridHashBegin_present (g : Grid) (hash : Z) (p : Z * Z) :
  begin_hash g !! hash = Some p → getGridHashBegin g hash = Ok p.
Proof.
  intros Hsome. unfold getGridHashBegin, map_empty, find_is_end, map_at.
  rewrite bool_decide_eq_false_2.
  2: { intros Hempty. rewrite Hempty, lookup_empty in Hsome. done. }
  rewrite bool_decide_eq_false_2 by (rewrite Hsome; done).
  rewrite Hsome. cbn. by destruct p.
Qed.

(** C10.  [getGridHashBegin] returns for every hash: each [at] is reached only
    with the key in the map, so it never throws, and the result is the stored
    pair when the hash has one and (-1, -1) otherwise. *)
Theorem getGridHashBegin_total (g : Grid) (hash : Z) :
  (∀ f, getGridHashBegin g hash ≠ Fault f) ∧
  ((∃ p, begin_hash g !! hash = Some p ∧ getGridHashBegin g hash = Ok p) ∨
   (begin_hash g !! hash = None ∧ getGridHashBegin g hash = Ok (-1, -1))).
Proof.
  destruct (begin_hash g !! hash) as [p|] eqn:Hlook.
  - rewrite (getGridHashBegin_present g hash p Hlook). split; [done|].
    left. by exists p.
  - rewrite (getGridHashBegin_absent g hash Hlook). split; [done|].
    by right.
Qed.

(** C7.  A hash without a bucket, the empty mapping included, gives the range
    (-1, -1) and no fault; the cell that is probed through it has no member,
    wherever the cell lies, inside or outside the extent of the grid. *)
Theorem absent_hash_no_neighbors (g : Grid) (hash : Z) :
  begin_hash g = ∅ ∨ begin_hash g !! hash = None →
  getGridHashBegin g hash = Ok (-1, -1) ∧
  cell_members g hash = Ok [] ∧
  ∀ x y z, toHash g x y z = hash → scan_cells g [(x, y, z)] = Ok [].
Proof.
  intros Habsent.
  assert (begin_hash g !! hash = None) as Hnone.
  { destruct Habsent as [Hempty|Hnone]; [|done].
    rewrite Hempty. apply lookup_empty. }
  pose proof (getGridHashBegin_absent g hash Hnone) as Hrange.
  assert (cell_members g hash = Ok []) as Hcell.
  { unfold cell_members. rewrite Hrange. reflexivity. }
  split; [done|]. split; [done|].
  intros x y z Hxyz. cbn [scan_cells]. rewrite Hxyz, Hcell.
  by destruct (in_extent g (x, y, z)).
Qed.

Lemma absent_hash_no_neighbors_witness :
  getGridHashBegin scenario_all_valid (-1) = Ok (-1, -1) ∧
  cell_members scenario_all_valid (-1) = Ok [].
Proof.
  destruct (absent_hash_no_neighbors scenario_all_valid (-1)) as (H1 & H2 & _).
  - right. vm_compute. reflexivity.
  - split; assumption.
Defined.

(** ** Bounds calculator *)

Section Extrema.
Local Open Scope Q_scope.

Lemma Qmax_cases (x y : Q) : Qmax x y = x ∨ Qmax x y = y.
Proof.
  unfold Qmax, GenericMinMax.gmax. destruct (x ?= y); auto.
Qed.

Lemma Qmin_cases (x y : Q) : Qmin x y = x ∨ Qmin x y = y.
Proof.
  unfold Qmin, GenericMinMax.gmin. destruct (x ?= y); auto.
Qed.

Lemma foldl_Qmax_elem (l : list Q) (x : Q) : foldl Qmax x l ∈ x :: l.
Proof.
  revert x. induction l as [|a l IH]; intros x; cbn; [by left|].
  specialize (IH (Qmax x a)). rewrite !elem_of_cons in *.
  destruct (Qmax_cases x a) as [E|E]; rewrite E in IH |- *; tauto.
Qed.

Lemma foldl_Qmin_elem (l : list Q) (x : Q) : foldl Qmin x l ∈ x :: l.
Proof.
  revert x. induction l as [|a l IH]; intros x; cbn; [by left|].
  specialize (IH (Qmin x a)). rewrite !elem_of_cons in *.
  destruct (Qmin_cases x a) as [E|E]; rewrite E in IH |- *; tauto.
Qed.

Lemma foldl_Qmax_upper (l : list Q) (x y : Q) :
  y ∈ x :: l → y <= foldl Qmax x l.
Proof.
  revert x y. induction l as [|a l IH]; intros x y Hy; cbn.
  - apply list_elem_of_singleton in Hy as ->. apply Qle_refl.
  - assert (Qmax x a <= foldl Qmax (Qmax x a) l) as Hinit
      by (apply IH; left).
    apply elem_of_cons in Hy as [->|Hy].
    + eapply Qle_trans; [apply Q.le_max_l|exact Hinit].
    + apply elem_of_cons in Hy as [->|Hy].
      * eapply Qle_trans; [apply Q.le_max_r|exact Hinit].
      * apply IH. by right.
Qed.

Lemma foldl_Qmin_lower (l : list Q) (x y : Q) :
  y ∈ x :: l → foldl Qmin x l <= y.
Proof.
  revert x y. induction l as [|a l IH]; intros x y Hy; cbn.
  - apply list_elem_of_singleton in Hy as ->. apply Qle_refl.
  - assert (foldl Qmin (Qmin x a) l <= Qmin x a) as Hinit
      by (apply IH; left).
    apply elem_of_cons in Hy as [->|Hy].
    + eapply Qle_trans; [exact Hinit|apply Q.le_min_l].
    + apply elem_of_cons in Hy as [->|Hy].
      * eapply Qle_trans; [exact Hinit|apply Q.le_min_r].
      * apply IH. by right.
Qed.

(** [maxCoeff] and [minCoeff] return on a row that is not empty, and what
    they return is the extremum of the row. *)
Lemma maxCoeff_is_max (r : list Q) :
  r ≠ [] → ∃ m, maxCoeff r = Ok m ∧ m ∈ r ∧ ∀ x, x ∈ r → x <= m.
Proof.
  destruct r as [|x r]; [done|]. intros _. eexists. split; [done|].
  split; [apply foldl_Qmax_elem|]. intros y. apply foldl_Qmax_upper.
Qed.

Lemma minCoeff_is_min (r : list Q) :
  r ≠ [] → ∃ m, minCoeff r = Ok m ∧ m ∈ r ∧ ∀ x, x ∈ r → m <= x.
Proof.
  destruct r as [|x r]; [done|]. intros _. eexists. split; [done|].
  split; [apply foldl_Qmin_elem|]. intros y. apply foldl_Qmin_lower.
Qed.

(** Extrema carry over to a list with the same values in the same places. *)
Lemma is_max_Forall2 (m : Q) (l l' : list Q) :
  Forall2 Qeq l l' → m ∈ l → (∀ x, x ∈ l → x <= m) → is_max m l'.
Proof.
  intros Hll Hm Hub. split.
  - apply list_elem_of_lookup in Hm as [i Hi].
    destruct (Forall2_lookup_l _ _ _ _ _ Hll Hi) as (m' & Hi' & Heq).
    exists m'. split; [by eapply list_elem_of_lookup_2|by symmetry].
  - intros x' Hx'. apply list_elem_of_lookup in Hx' as [i Hi'].
    destruct (Forall2_lookup_r _ _ _ _ _ Hll Hi') as (x & Hi & Heq).
    rewrite <- Heq. apply Hub. by eapply list_elem_of_lookup_2.
Qed.

Lemma is_min_Forall2 (m : Q) (l l' : list Q) :
  Forall2 Qeq l l' → m ∈ l → (∀ x, x ∈ l → m <= x) → is_min m l'.
Proof.
  intros Hll Hm Hlb. split.
  - apply list_elem_of_lookup in Hm as [i Hi].
    destruct (Forall2_lookup_l _ _ _ _ _ Hll Hi) as (m' & Hi' & Heq).
    exists m'. split; [by eapply list_elem_of_lookup_2|by symmetry].
  - intros x' Hx'. apply list_elem_of_lookup in Hx' as [i Hi'].
    destruct (Forall2_lookup_r _ _ _ _ _ Hll Hi') as (x & Hi & Heq).
    rewrite <- Heq. apply Hlb. by eapply list_elem_of_lookup_2.
Qed.

(** An extremum is determined by the list, as a number. *)
Lemma is_max_unique (m m' : Q) (l : list Q) :
  is_max m l → is_max m' l → m == m'.
Proof.
  intros [(x & Hx & Ex) Hub] [(x' & Hx' & Ex') Hub'].
  apply Qle_antisym.
  - rewrite <- Ex. by apply Hub'.
  - rewrite <- Ex'. by apply Hub.
Qed.

Lemma is_min_unique (m m' : Q) (l : list Q) :
  is_min m l → is_min m' l → m == m'.
Proof.
  intros [(x & Hx & Ex) Hlb] [(x' & Hx' & Ex') Hlb'].
  apply Qle_antisym.
  - rewrite <- Ex'. by apply Hlb.
  - rewrite <- Ex. by apply Hlb'.
Qed.
End Extrema.

Lemma scale_column_coeff (c : Vector3d) (b : bool) (k : nat) :
  (coeff (scale_column c b) k == if b then coeff c k else 0)%Q.
Proof.
  destruct k as [|[|k]], b; cbn; ring.
Qed.

(** Row [k] of the masked matrix holds the contributions of axis [k]. *)
Lemma masked_row (cols : list Vector3d) (mask : list bool) (k : nat) :
  Forall2 Qeq (row k (zip_with scale_column cols mask))
    (zip_with (λ c (b : bool), if b then coeff c k else 0%Q) cols mask).
Proof.
  revert mask. induction cols as [|c cols IH]; intros [|b mask]; cbn;
    try constructor.
  - apply scale_column_coeff.
  - apply IH.
Qed.

Lemma row_nonempty (k : nat) (cols : list Vector3d) :
  cols ≠ [] → row k cols ≠ [].
Proof. by destruct cols. Qed.

(** The bounds exist as soon as there is a particle and the mask has the size
    of the matrix, and along every axis they are the extrema of the
    contributions. *)
Lemma bounds_are_extrema (g : Grid) :
  length (coordinates g) = length (valid_coordinates g) →
  coordinates g ≠ [] →
  ∃ hi lo,
    getMaxCoordinates g = Ok hi ∧ getMinCoordinates g = Ok lo ∧
    ∀ k, is_max (coeff hi k) (contributions g k) ∧
         is_min (coeff lo k) (contributions g k).
Proof.
  intros Hlen Hne. unfold getMaxCoordinates, getMinCoordinates, masked.
  rewrite bool_decide_eq_true_2 by done. cbn [mbind result_bind].
  set (m := zip_with scale_column (coordinates g) (valid_coordinates g)).
  assert (m ≠ []) as Hm.
  { unfold m. destruct (coordinates g), (valid_coordinates g); done. }
  destruct (maxCoeff_is_max (row 0 m)) as (x & -> & Hx); [by apply row_nonempty|].
  destruct (maxCoeff_is_max (row 1 m)) as (y & -> & Hy); [by apply row_nonempty|].
  destruct (maxCoeff_is_max (row 2 m)) as (z & -> & Hz); [by apply row_nonempty|].
  destruct (minCoeff_is_min (row 0 m)) as (x' & -> & Hx'); [by apply row_nonempty|].
  destruct (minCoeff_is_min (row 1 m)) as (y' & -> & Hy'); [by apply row_nonempty|].
  destruct (minCoeff_is_min (row 2 m)) as (z' & -> & Hz'); [by apply row_nonempty|].
  cbn [mbind result_bind]. eexists _, _. split; [done|]. split; [done|].
  intros k. unfold contributions.
  pose proof (masked_row (coordinates g) (valid_coordinates g) k) as Hrow.
  fold m in Hrow.
  destruct k as [|[|k]]; cbn [coeff vx vy vz]; split;
    first [ eapply is_max_Forall2; [exact Hrow|..]
          | eapply is_min_Forall2; [exact Hrow|..] ];
    first [ apply Hx | apply Hy | apply Hz | apply Hx' | apply Hy' | apply Hz' ].
Qed.

(** A masked-out column puts a 0 among the contributions of every axis. *)
Lemma zero_contribution (g : Grid) (k : nat) :
  length (coordinates g) = length (valid_coordinates g) →
  false ∈ valid_coordinates g →
  0%Q ∈ contributions g k.
Proof.
  intros Hlen Hfalse. apply list_elem_of_lookup in Hfalse as [i Hi].
  destruct (lookup_lt_is_Some_2 (coordinates g) i) as [c Hc].
  { rewrite Hlen. by eapply lookup_lt_Some. }
  apply list_elem_of_lookup. exists i. unfold contributions.
  rewrite lookup_zip_with, Hc, Hi. reflexivity.
Qed.

(** The contributions are the coordinates of the valid columns, and 0 when
    some column is masked out. *)
Lemma contributions_elem (cols : list Vector3d) (mask : list bool) (k : nat) (x : Q) :
  length cols = length mask →
  x ∈ zip_with (λ c (b : bool), if b then coeff c k else 0%Q) cols mask ↔
  x ∈ (λ cb : Vector3d * bool, coeff cb.1 k)
        <$> filter (λ cb : Vector3d * bool, cb.2 = true) (zip cols mask)
  ∨ (x = 0%Q ∧ false ∈ mask).
Proof.
  revert mask. induction cols as [|c cols IH]; intros [|b mask] Hlen;
    try discriminate.
  - cbn. rewrite !elem_of_nil. tauto.
  - injection Hlen as Hlen. specialize (IH mask Hlen).
    cbn [zip_with zip]. rewrite filter_cons. cbn [snd].
    destruct b.
    + rewrite decide_True by done. rewrite fmap_cons. cbn [fst].
      rewrite !elem_of_cons, IH. intuition congruence.
    + rewrite decide_False by done.
      rewrite !elem_of_cons, IH. intuition congruence.
Qed.

(** The contributions do not depend on the coordinates of masked-out
    columns. *)
Lemma contributions_agree (g g' : Grid) (k : nat) :
  valid_coordinates g' = valid_coordinates g →
  length (coordinates g') = length (coordinates g) →
  (∀ j, valid_coordinates g !! j = Some true →
        coordinates g' !! j = coordinates g !! j) →
  contributions g' k = contributions g k.
Proof.
  intros Hmask Hlen Hvalid. unfold contributions. rewrite Hmask.
  apply list_eq. intros i. rewrite !lookup_zip_with.
  destruct (valid_coordinates g !! i) as [[|]|] eqn:Hi.
  - by rewrite Hvalid.
  - destruct (coordinates g !! i) as [c|] eqn:Hc.
    + destruct (lookup_lt_is_Some_2 (coordinates g') i) as [c' ->]; [|done].
      rewrite Hlen. by eapply lookup_lt_Some.
    + rewrite (lookup_ge_None_2 (coordinates g')); [done|].
      rewrite Hlen. by apply lookup_ge_None.
  - by destruct (coordinates g' !! i), (coordinates g !! i).
Qed.

(** C8.  With a mask that has a false entry, every component of the upper
    bounds is at least 0 and every component of the lower bounds is at most
    0: the masked-out column contributes 0 to each row. *)
Theorem masked_bounds_straddle_zero (g : Grid) :
  length (coordinates g) = length (valid_coordinates g) →
  false ∈ valid_coordinates g →
  ∃ hi lo,
    getMaxCoordinates g = Ok hi ∧ getMinCoordinates g = Ok lo ∧
    ∀ k, (0 <= coeff hi k)%Q ∧ (coeff lo k <= 0)%Q.
Proof.
  intros Hlen Hfalse.
  destruct (bounds_are_extrema g Hlen) as (hi & lo & Hhi & Hlo & Hext).
  { intros Hnil. rewrite Hnil in Hlen.
    destruct (valid_coordinates g); [by apply elem_of_nil in Hfalse|done]. }
  exists hi, lo. split; [done|]. split; [done|]. intros k.
  destruct (Hext k) as [[_ Hub] [_ Hlb]].
  pose proof (zero_contribution g k Hlen Hfalse) as Hzero.
  split; [by apply Hub|by apply Hlb].
Qed.

Lemma masked_bounds_straddle_zero_witness :
  ∃ hi lo,
    getMaxCoordinates
      (grid_of_particles 3 [Vec3 (-1) (-2) (-3); Vec3 5 5 5] [true; false])
      = Ok hi ∧
    getMinCoordinates
      (grid_of_particles 3 [Vec3 (-1) (-2) (-3); Vec3 5 5 5] [true; false])
      = Ok lo ∧
    (0 <= vx hi)%Q ∧ (vx lo <= 0)%Q.
Proof.
  destruct (masked_bounds_straddle_zero
              (grid_of_particles 3 [Vec3 (-1) (-2) (-3); Vec3 5 5 5]
                 [true; false]))
    as (hi & lo & Hhi & Hlo & Hsign).
  - reflexivity.
  - cbn. apply elem_of_cons. right. apply elem_of_cons. by left.
  - exists hi, lo. split; [exact Hhi|]. split; [exact Hlo|].
    exact (Hsign 0%nat).
Defined.

(** C1, as the code has it.  With at least one valid particle the bounds
    exist, and along each of the three axes, whatever the dimension, they are
    the maximum and the minimum of the contributions: the coordinates of the
    valid columns, together with 0 when some column is masked out.  The
    coordinates of masked-out columns have no influence on the bounds. *)
Theorem bounds_of_contributions (g : Grid) :
  length (coordinates g) = length (valid_coordinates g) →
  true ∈ valid_coordinates g →
  ∃ hi lo,
    getMaxCoordinates g = Ok hi ∧ getMinCoordinates g = Ok lo ∧
    (∀ k, is_max (coeff hi k) (contributions g k) ∧
          is_min (coeff lo k) (contributions g k)) ∧
    (∀ k x, x ∈ contributions g k ↔
            x ∈ valid_entries g k ∨ (x = 0%Q ∧ false ∈ valid_coordinates g)) ∧
    (∀ g',
       valid_coordinates g' = valid_coordinates g →
       length (coordinates g') = length (coordinates g) →
       (∀ j, valid_coordinates g !! j = Some true →
             coordinates g' !! j = coordinates g !! j) →
       ∃ hi' lo',
         getMaxCoordinates g' = Ok hi' ∧ getMinCoordinates g' = Ok lo' ∧
         vec_eq hi' hi ∧ vec_eq lo' lo).
Proof.
  intros Hlen Htrue.
  assert (coordinates g ≠ []) as Hne.
  { intros Hnil. rewrite Hnil in Hlen.
    destruct (valid_coordinates g); [by apply elem_of_nil in Htrue|done]. }
  destruct (bounds_are_extrema g Hlen Hne) as (hi & lo & Hhi & Hlo & Hext).
  exists hi, lo. split; [done|]. split; [done|]. split; [done|]. split.
  - intros k x. by apply contributions_elem.
  - intros g' Hmask Hlen' Hvalid.
    destruct (bounds_are_extrema g') as (hi' & lo' & Hhi' & Hlo' & Hext').
    { by rewrite Hlen', Hmask. }
    { intros Hnil. rewrite Hnil in Hlen'. by destruct (coordinates g). }
    exists hi', lo'. split; [done|]. split; [done|].
    assert (∀ k, (coeff hi' k == coeff hi k)%Q ∧ (coeff lo' k == coeff lo k)%Q)
      as Hsame.
    { intros k. destruct (Hext k) as [Hmax Hmin].
      destruct (Hext' k) as [Hmax' Hmin'].
      rewrite (contributions_agree g g' k Hmask Hlen' Hvalid) in Hmax', Hmin'.
      split; [by eapply is_max_unique|by eapply is_min_unique]. }
    split; repeat split;
      first [apply (Hsame 0%nat) | apply (Hsame 1%nat) | apply (Hsame 2%nat)].
Qed.

Lemma bounds_of_contributions_witness :
  ∃ hi lo,
    getMaxCoordinates
      (grid_of_particles 2 [Vec3 1 2 3; Vec3 5 5 5] [true; false]) = Ok hi ∧
    getMinCoordinates
      (grid_of_particles 2 [Vec3 1 2 3; Vec3 5 5 5] [true; false]) = Ok lo ∧
    is_max (vx hi) [1%Q; 0%Q] ∧ is_min (vx lo) [1%Q; 0%Q].
Proof.
  destruct (bounds_of_contributions
              (grid_of_particles 2 [Vec3 1 2 3; Vec3 5 5 5] [true; false]))
    as (hi & lo & Hhi & Hlo & Hext & _).
  - reflexivity.
  - cbn. apply elem_of_cons. by left.
  - exists hi, lo. split; [exact Hhi|]. split; [exact Hlo|].
    exact (Hext 0%nat).
Defined.

(** C1, as it is worded, fails.  In two dimensions, with the particle (1, 2, 3)
    valid and the particle (5, 5, 5) masked out, the lower bound along x is 0,
    which is not the minimum of the valid x coordinates (the only one is 1),
    and the upper bound along z is 3, not 0. *)
Lemma bounds_not_restricted_to_valid :
  let g := grid_of_particles 2 [Vec3 1 2 3; Vec3 5 5 5] [true; false] in
  dimension g = 2 ∧ true ∈ valid_coordinates g ∧
  getMinCoordinates g = Ok (Vec3 0 0 0) ∧
  getMaxCoordinates g = Ok (Vec3 1 2 3) ∧
  valid_entries g 0 = [1%Q] ∧
  ¬ is_min 0 (valid_entries g 0) ∧
  ¬ (3 == 0)%Q.
Proof.
  cbn zeta. split; [reflexivity|]. split; [apply elem_of_cons; by left|].
  split; [reflexivity|]. split; [reflexivity|]. split; [reflexivity|].
  split.
  - intros [(x & Hx & Ex) _]. cbn in Hx.
    apply list_elem_of_singleton in Hx as ->. discriminate Ex.
  - discriminate.
Qed.

(** ** Cell indexer: from a position *)

Lemma double_div_ok (a b : Q) :
  ¬ (b == 0)%Q → double_div a b = Ok (a / b)%Q.
Proof.
  intros Hb. unfold double_div.
  destruct (Qeq_bool b 0) eqn:E; [|done].
  by apply Qeq_bool_eq in E.
Qed.

Lemma ceil_to_int_is_ceiling (q : Q) : is_ceiling (ceil_to_int q) q.
Proof.
  unfold is_ceiling, ceil_to_int. split; [|apply Qle_ceiling].
  pose proof (Qceiling_lt q) as Hlt.
  replace (Qceiling q - 1) with (Qceiling q + -1) in Hlt by lia.
  rewrite inject_Z_plus in Hlt. exact Hlt.
Qed.

Lemma axis_index_ok (g : Grid) (vec : Vector3d) (k : nat) :
  ¬ (grid_width g == 0)%Q →
  ∃ n, axis_index g vec k = Ok n ∧
       is_ceiling n ((coeff vec k - coeff (lower_bounds g) k) / grid_width g).
Proof.
  intros Hw. unfold axis_index. rewrite double_div_ok by done.
  eexists. split; [reflexivity|]. apply ceil_to_int_is_ceiling.
Qed.

(** ** Construction and queries *)

Lemma bind_Ok {A B : Type} (r : result A) (k : A → result B) (b : B) :
  r ≫= k = Ok b → ∃ a, r = Ok a ∧ k a = Ok b.
Proof. destruct r as [a|f]; [by exists a|discriminate]. Qed.

(** Splits a successful sequence [x ← r; k] into its successful steps. *)
Ltac ok_inv H :=
  repeat match type of H with
         | _ ≫= _ = Ok _ =>
             let a := fresh "a" in
             let E := fresh "E" in
             apply bind_Ok in H as (a & E & H)
         | Ok _ = Ok _ => injection H as H
         end.

(** Every pair that the bucket builder makes carries the index of a valid
    column. *)
Lemma hash_pairs_valid (g : Grid) (cols : list Vector3d) (mask : list bool)
    (i : Z) (l : list (Z * Z)) :
  hash_pairs g i cols mask = Ok l →
  ∀ p, p ∈ l →
    i ≤ p.2 ∧ mask !! Z.to_nat (p.2 - i) = Some true ∧
    is_Some (cols !! Z.to_nat (p.2 - i)).
Proof.
  revert mask i l.
  induction cols as [|c cols IH]; intros [|v mask] i l Hl p Hp;
    cbn in Hl; try (injection Hl as <-; by apply elem_of_nil in Hp).
  assert (∀ l', hash_pairs g (i + 1) cols mask = Ok l' → p ∈ l' →
            i ≤ p.2 ∧ (v :: mask) !! Z.to_nat (p.2 - i) = Some true ∧
            is_Some ((c :: cols) !! Z.to_nat (p.2 - i))) as Hrest.
  { intros l' Hl' Hp'. destruct (IH mask (i + 1) l' Hl' p Hp') as (Hi & Hm & Hc).
    replace (Z.to_nat (p.2 - i)) with (S (Z.to_nat (p.2 - (i + 1)))) by lia.
    split; [lia|]. by split. }
  destruct v; [|by eapply Hrest].
  ok_inv Hl. subst l. apply elem_of_cons in Hp as [->|Hp]; [|by eapply Hrest].
  cbn. rewrite Z.sub_diag. cbn. split; [lia|]. split; [done|by eexists].
Qed.

Lemma insert_by_hash_Permutation (p : Z * Z) (l : list (Z * Z)) :
  insert_by_hash p l ≡ₚ p :: l.
Proof.
  induction l as [|q l IH]; cbn; [done|].
  destruct (p.1 <=? q.1); [done|]. rewrite IH. apply Permutation_swap.
Qed.

(** The sort keeps the pairs: it only moves them. *)
Lemma sort_by_hash_Permutation (l : list (Z * Z)) : sort_by_hash l ≡ₚ l.
Proof.
  induction l as [|p l IH]; cbn; [done|].
  rewrite insert_by_hash_Permutation. by rewrite IH.
Qed.

(** What the constructor leaves in the members of a grid. *)
Lemma Grid_new_members (cell_count : Q → Z) (width : Q) (cols : list Vector3d)
    (mask : list bool) (dim : Z) (g : Grid) :
  Grid_new cell_count width cols mask dim = Ok g →
  dimension g = dim ∧ size g = Z.of_nat (length cols) ∧ grid_width g = width ∧
  coordinates g = cols ∧ valid_coordinates g = mask ∧
  ∃ g0 pairs,
    coordinates g0 = cols ∧ valid_coordinates g0 = mask ∧
    hash_pairs g0 0 cols mask = Ok pairs ∧
    grid_hash g = sort_by_hash pairs ∧
    begin_hash g = scan_ranges 0 (sort_by_hash pairs) ∅.
Proof.
  unfold Grid_new, setHash. intros H. ok_inv H. subst g. cbn.
  repeat (split; [reflexivity|]).
  match goal with
  | E : hash_pairs ?g0 _ _ _ = Ok ?pairs |- _ => exists g0, pairs
  end.
  by repeat split.
Qed.

(** The sorted vector of a constructed grid holds valid particles only. *)
Lemma stored_valid (cell_count : Q → Z) (width : Q) (cols : list Vector3d)
    (mask : list bool) (dim : Z) (g : Grid) (j : Z) :
  Grid_new cell_count width cols mask dim = Ok g →
  stored g j →
  valid_at mask j ∧ ∃ c, col g j = Ok c.
Proof.
  intros Hnew Hj.
  destruct (Grid_new_members _ _ _ _ _ _ Hnew)
    as (_ & _ & _ & Hcols & _ & g0 & pairs & _ & _ & Hpairs & Hsorted & _).
  unfold stored in Hj. rewrite Hsorted in Hj.
  apply list_elem_of_fmap in Hj as (p & -> & Hp).
  rewrite sort_by_hash_Permutation in Hp.
  destruct (hash_pairs_valid _ _ _ _ _ Hpairs p Hp) as (Hge & Hmask & [c Hc]).
  rewrite Z.sub_0_r in Hmask, Hc. split; [by split|].
  exists c. unfold col. rewrite Hcols, Hc.
  by destruct (Z.ltb_spec p.2 0); [lia|].
Qed.

Lemma sorted_index_stored (g : Grid) (n j : Z) :
  sorted_index g n = Ok j → stored g j.
Proof.
  unfold sorted_index, stored. destruct (n <? 0); [discriminate|].
  destruct (grid_hash g !! Z.to_nat n) as [p|] eqn:Hp; [|discriminate].
  intros [= <-]. apply list_elem_of_fmap. exists p. split; [done|].
  by eapply list_elem_of_lookup_2.
Qed.

Lemma slice_indices_stored (g : Grid) (k : nat) (n : Z) (l : list Z) :
  slice_indices g n k = Ok l → ∀ j, j ∈ l → stored g j.
Proof.
  revert n l. induction k as [|k IH]; intros n l Hl j Hj; cbn in Hl.
  - injection Hl as <-. by apply elem_of_nil in Hj.
  - ok_inv Hl. subst l. apply elem_of_cons in Hj as [->|Hj].
    + by eapply sorted_index_stored.
    + by eapply IH.
Qed.

Lemma cell_members_stored (g : Grid) (hash : Z) (l : list Z) :
  cell_members g hash = Ok l → ∀ j, j ∈ l → stored g j.
Proof.
  unfold cell_members. intros Hl. apply bind_Ok in Hl as ([b e] & _ & Hl).
  by eapply slice_indices_stored.
Qed.

Lemma scan_cells_stored (g : Grid) (cells : list (Z * Z * Z)) (l : list Z) :
  scan_cells g cells = Ok l → ∀ j, j ∈ l → stored g j.
Proof.
  revert l. induction cells as [|[[x y] z] cells IH]; intros l Hl j Hj;
    cbn [scan_cells] in Hl.
  - injection Hl as <-. by apply elem_of_nil in Hj.
  - ok_inv Hl. subst l. apply elem_of_app in Hj as [Hj|Hj]; [|by eapply IH].
    destruct (in_extent g (x, y, z)).
    + by eapply cell_members_stored.
    + injection E as <-. by apply elem_of_nil in Hj.
Qed.

(** The filter keeps candidates only, and only those whose column is not
    farther than the width from [c], in the terms in which it decides. *)
Lemma keep_within_kept (g : Grid) (c : Vector3d) (cands l : list Z) :
  keep_within g c cands = Ok l →
  ∀ j, j ∈ l →
    j ∈ cands ∧
    ∃ cj, col g j = Ok cj ∧ norm_exceeds (vsub cj c) (grid_width g) = false.
Proof.
  revert l. induction cands as [|i cands IH]; intros l Hl j Hj; cbn in Hl.
  - injection Hl as <-. by apply elem_of_nil in Hj.
  - ok_inv Hl. subst l. rename a into ci.
    assert (j ∈ a0 → j ∈ i :: cands ∧
            ∃ cj, col g j = Ok cj ∧
                  norm_exceeds (vsub cj c) (grid_width g) = false) as Hrest.
    { intros Hj'. destruct (IH a0 E0 j Hj') as [Hin Hwithin].
      split; [by right|done]. }
    destruct (norm_exceeds (vsub ci c) (grid_width g)) eqn:Hex; [by auto|].
    apply elem_of_cons in Hj as [->|Hj]; [|by auto].
    split; [by left|]. by exists ci.
Qed.

Section Distance.
Local Open Scope R_scope.

Lemma squaredNorm_nonneg (v : Vector3d) : 0 <= Q2R (squaredNorm v).
Proof.
  unfold squaredNorm. rewrite !Q2R_plus, !Q2R_mult. nra.
Qed.

(** The decision on rationals is the comparison of the norm with the
    radius. *)
Lemma norm_exceeds_spec (v : Vector3d) (r : Q) :
  norm_exceeds v r = true ↔ Q2R r < norm v.
Proof.
  unfold norm_exceeds, norm.
  pose proof (squaredNorm_nonneg v) as Hsq.
  pose proof (sqrt_pos (Q2R (squaredNorm v))) as Hroot.
  rewrite negb_true_iff, andb_false_iff.
  destruct (Qle_bool 0 r) eqn:Hr.
  - apply Qle_bool_iff, Qle_Rle in Hr. rewrite RMicromega.Q2R_0 in Hr.
    rewrite <- (sqrt_square (Q2R r)) by done.
    rewrite <- Q2R_mult. split.
    + intros [?|Hle]; [done|]. apply sqrt_lt_1_alt.
      split; [rewrite Q2R_mult; nra|].
      apply Qlt_Rlt, Qnot_le_lt. intros Hq.
      apply Qle_bool_iff in Hq. congruence.
    + intros Hlt. right. apply not_true_is_false. intros Hq.
      apply Qle_bool_iff, Qle_Rle in Hq.
      apply sqrt_le_1_alt in Hq. lra.
  - split; [|by left]. intros _.
    assert (Q2R r < 0); [|lra].
    rewrite <- RMicromega.Q2R_0. apply Qlt_Rlt, Qnot_le_lt. intros Hq.
    apply Qle_bool_iff in Hq. congruence.
Qed.

Lemma norm_within (v : Vector3d) (r : Q) :
  norm_exceeds v r = false → norm v <= Q2R r.
Proof.
  intros Hex. apply Rnot_lt_le. intros Hlt.
  apply norm_exceeds_spec in Hlt. congruence.
Qed.
End Distance.

(** What a query puts in its output was taken from the sorted vector. *)
Lemma getNeighborsInBox_stored (g : Grid) (index : Z) (out : list Z) :
  getNeighborsInBox g index = Ok out → ∀ j, j ∈ out → stored g j.
Proof.
  unfold getNeighborsInBox. destruct (bool_decide _); [|discriminate].
  intros H. ok_inv H. by eapply scan_cells_stored.
Qed.

Lemma getNeighbors_stored (g : Grid) (index : Z) (out : list Z) :
  getNeighbors g index = Ok out → ∀ j, j ∈ out → stored g j.
Proof.
  unfold getNeighbors. destruct (bool_decide _); [|discriminate].
  intros H j Hj. ok_inv H.
  destruct (keep_within_kept _ _ _ _ H j Hj) as [Hcand _].
  by eapply scan_cells_stored.
Qed.

(** C2.  Every particle [j] that [getNeighbors(i, out)] puts in [out] lies
    within [grid_width] of particle [i], in Euclidean distance.  This holds on
    every grid, constructed ones in particular. *)
Theorem neighbors_within_radius (g : Grid) (i : Z) (out : list Z) :
  getNeighbors g i = Ok out →
  ∃ ci, col g i = Ok ci ∧
    ∀ j, j ∈ out →
      ∃ cj, col g j = Ok cj ∧ (distance cj ci <= Q2R (grid_width g))%R.
Proof.
  unfold getNeighbors. destruct (bool_decide _); [|discriminate].
  intros H. ok_inv H. rename a into ci. exists ci. split; [done|].
  intros j Hj.
  destruct (keep_within_kept _ _ _ _ H j Hj) as (_ & cj & Hcj & Hwithin).
  exists cj. split; [done|]. by apply norm_within.
Qed.

Lemma neighbors_within_radius_witness :
  ∃ ci, col scenario_all_valid 0 = Ok ci ∧
    ∀ j, j ∈ [0; 1] →
      ∃ cj, col scenario_all_valid j = Ok cj ∧
            (distance cj ci <= Q2R (grid_width scenario_all_valid))%R.
Proof.
  apply (neighbors_within_radius scenario_all_valid 0 [0; 1]).
  vm_compute. reflexivity.
Defined.

(** C3.  On a constructed grid, every index in the output of [getNeighbors]
    or [getNeighborsInBox] has a true entry in the validity mask; so an index
    whose entry is false is in no output, whatever its coordinates. *)
Theorem neighbors_are_valid (cell_count : Q → Z) (width : Q)
    (cols : list Vector3d) (mask : list bool) (dim : Z) (g : Grid)
    (i : Z) (out : list Z) :
  Grid_new cell_count width cols mask dim = Ok g →
  getNeighbors g i = Ok out ∨ getNeighborsInBox g i = Ok out →
  (∀ j, j ∈ out → valid_at mask j) ∧
  (∀ j, 0 ≤ j → mask !! Z.to_nat j = Some false → j ∉ out).
Proof.
  intros Hnew Hout.
  assert (∀ j, j ∈ out → valid_at mask j) as Hvalid.
  { intros j Hj. eapply stored_valid; [exact Hnew|].
    destruct Hout as [Hout|Hout].
    - by eapply getNeighbors_stored.
    - by eapply getNeighborsInBox_stored. }
  split; [done|]. intros j _ Hfalse Hj.
  destruct (Hvalid j Hj) as [_ Htrue]. congruence.
Qed.

Lemma neighbors_are_valid_witness :
  (∀ j, j ∈ [0] → valid_at [true; false; true] j) ∧
  (∀ j, 0 ≤ j → [true; false; true] !! Z.to_nat j = Some false → j ∉ [0]).
Proof.
  apply (neighbors_are_valid count_cells 1 scenario_particles
           [true; false; true] 2 scenario_one_ghost 0 [0]).
  - vm_compute. reflexivity.
  - right. vm_compute. reflexivity.
Defined.

(** ** The queries return on a constructed grid *)

(** Every range that the scan records lies within the part of the sorted
    vector that it has read. *)
Lemma scan_ranges_bounds (l : list (Z * Z)) (n : Z) (m : gmap Z (Z * Z)) :
  (∀ h b e, m !! h = Some (b, e) → 0 ≤ b ∧ b ≤ e ≤ n) →
  0 ≤ n →
  ∀ h b e, scan_ranges n l m !! h = Some (b, e) →
    0 ≤ b ∧ b ≤ e ≤ n + Z.of_nat (length l).
Proof.
  revert n m. induction l as [|[h0 j0] l IH]; intros n m Hm Hn h b e; cbn.
  - intros Hlook. destruct (Hm h b e Hlook). lia.
  - intros Hlook. apply IH in Hlook; [lia| |lia].
    clear h b e Hlook. intros h b e.
    destruct (decide (h0 = h)) as [->|Hne].
    + rewrite lookup_insert_eq. intros [= <- <-].
      destruct (m !! h) as [[b' e']|] eqn:Hh; [|lia].
      destruct (Hm h b' e' Hh). lia.
    + rewrite lookup_insert_ne by done. intros Hlook.
      destruct (Hm h b e Hlook). lia.
Qed.

Lemma slice_indices_ok (g : Grid) (k : nat) (n : Z) :
  0 ≤ n → n + Z.of_nat k ≤ Z.of_nat (length (grid_hash g)) →
  ∃ l, slice_indices g n k = Ok l.
Proof.
  revert n. induction k as [|k IH]; intros n Hn Hk; cbn; [by eexists|].
  unfold sorted_index. destruct (Z.ltb_spec n 0); [lia|].
  destruct (lookup_lt_is_Some_2 (grid_hash g) (Z.to_nat n)) as [p ->]; [lia|].
  cbn. destruct (IH (n + 1)) as [l ->]; [lia..|]. by eexists.
Qed.

Lemma cell_members_ok (cell_count : Q → Z) (width : Q) (cols : list Vector3d)
    (mask : list bool) (dim : Z) (g : Grid) (hash : Z) :
  Grid_new cell_count width cols mask dim = Ok g →
  ∃ l, cell_members g hash = Ok l.
Proof.
  intros Hnew.
  destruct (Grid_new_members _ _ _ _ _ _ Hnew)
    as (_ & _ & _ & _ & _ & g0 & pairs & _ & _ & _ & Hsorted & Hranges).
  unfold cell_members.
  destruct (begin_hash g !! hash) as [[b e]|] eqn:Hlook.
  - rewrite (getGridHashBegin_present g hash _ Hlook). cbn.
    rewrite Hranges in Hlook. apply scan_ranges_bounds in Hlook; [|done..].
    rewrite <- Hsorted in Hlook. apply slice_indices_ok; lia.
  - rewrite (getGridHashBegin_absent g hash Hlook). by eexists.
Qed.

Lemma scan_cells_ok (cell_count : Q → Z) (width : Q) (cols : list Vector3d)
    (mask : list bool) (dim : Z) (g : Grid) (cells : list (Z * Z * Z)) :
  Grid_new cell_count width cols mask dim = Ok g →
  ∃ l, scan_cells g cells = Ok l.
Proof.
  intros Hnew. induction cells as [|[[x y] z] cells [rest IH]];
    cbn [scan_cells]; [by eexists|].
  rewrite IH. destruct (in_extent g (x, y, z)); [|by eexists].
  destruct (cell_members_ok _ _ _ _ _ _ (toHash g x y z) Hnew) as [here ->].
  by eexists.
Qed.

Lemma keep_within_ok (g : Grid) (c : Vector3d) (cands : list Z) :
  (∀ j, j ∈ cands → ∃ cj, col g j = Ok cj) →
  ∃ l, keep_within g c cands = Ok l.
Proof.
  induction cands as [|j cands IH]; intros Hcol; cbn; [by eexists|].
  destruct (Hcol j) as [cj ->]; [by left|].
  destruct IH as [rest ->]; [intros j' Hj'; apply Hcol; by right|].
  by eexists.
Qed.

Lemma toIndex_ok (g : Grid) (vec : Vector3d) :
  ¬ (grid_width g == 0)%Q → ∃ cell, toIndex g vec = Ok cell.
Proof.
  intros Hw. unfold toIndex.
  destruct (axis_index_ok g vec 0 Hw) as (dx & -> & _).
  destruct (axis_index_ok g vec 1 Hw) as (dy & -> & _).
  destruct (axis_index_ok g vec 2 Hw) as (dz & Ez & _).
  cbn [mbind result_bind].
  destruct (dimension g =? 3); [rewrite Ez|]; by eexists.
Qed.

(** A constructed grid has a cell width that is not 0. *)
Lemma Grid_new_width (cell_count : Q → Z) (width : Q) (cols : list Vector3d)
    (mask : list bool) (dim : Z) (g : Grid) :
  Grid_new cell_count width cols mask dim = Ok g → ¬ (width == 0)%Q.
Proof.
  unfold Grid_new. intros H Hw. ok_inv H.
  match goal with
  | E : double_div _ width = Ok _ |- _ =>
      unfold double_div in E; rewrite (Qeq_eq_bool _ _ Hw) in E; discriminate
  end.
Qed.

(** On a constructed grid both queries return for every index in
    [0, size). *)
Lemma queries_return (cell_count : Q → Z) (width : Q) (cols : list Vector3d)
    (mask : list bool) (dim : Z) (g : Grid) (i : Z) :
  Grid_new cell_count width cols mask dim = Ok g →
  0 ≤ i < size g →
  (∃ out, getNeighbors g i = Ok out) ∧ (∃ out, getNeighborsInBox g i = Ok out).
Proof.
  intros Hnew Hi.
  destruct (Grid_new_members _ _ _ _ _ _ Hnew)
    as (_ & Hsize & Hwidth & Hcols & _).
  pose proof (Grid_new_width _ _ _ _ _ _ Hnew) as Hw. rewrite <- Hwidth in Hw.
  unfold getNeighbors, getNeighborsInBox.
  rewrite bool_decide_eq_true_2 by done.
  assert (∃ c, col g i = Ok c) as [c ->].
  { unfold col. destruct (Z.ltb_spec i 0); [lia|].
    destruct (lookup_lt_is_Some_2 (coordinates g) (Z.to_nat i)) as [c ->];
      [|by eexists].
    rewrite Hcols. lia. }
  cbn [mbind result_bind].
  destruct (toIndex_ok g c Hw) as ([[dx dy] dz] & ->).
  cbn [mbind result_bind].
  destruct (scan_cells_ok _ _ _ _ _ _ (neighbor_cells g (dx, dy, dz)) Hnew)
    as [cands Hcands].
  rewrite Hcands. cbn [mbind result_bind]. split; [|by eexists].
  apply keep_within_ok. intros j Hj.
  eapply stored_valid; [exact Hnew|]. by eapply scan_cells_stored.
Qed.

(** ** The scenarios of the specification *)

Example scenario_1_neighbors_of_0 : getNeighbors scenario_all_valid 0 = Ok [0; 1].
Proof. vm_compute. reflexivity. Qed.

Example scenario_1_neighbors_of_2 : getNeighbors scenario_all_valid 2 = Ok [2].
Proof. vm_compute. reflexivity. Qed.

Example scenario_2_neighbors_of_0 : getNeighbors scenario_one_ghost 0 = Ok [0].
Proof. vm_compute. reflexivity. Qed.

Example scenario_3_exact_and_box :
  let g := constructed (Grid_new count_cells 1
                          [Vec3 0 0 0; Vec3 (99 # 100) (99 # 100) 0]
                          [true; true] 2) in
  getNeighbors g 0 = Ok [0] ∧ getNeighbors g 1 = Ok [1] ∧
  getNeighborsInBox g 0 = Ok [0; 1] ∧ getNeighborsInBox g 1 = Ok [0; 1].
Proof. vm_compute. repeat split. Qed.

Example scenario_4_single_particle :
  getNeighbors (constructed (Grid_new count_cells 1 [Vec3 0 0 0] [true] 2)) 0
  = Ok [0].
Proof. vm_compute. reflexivity. Qed.

Example sort_by_hash_is_stable :
  sort_by_hash [(3, 0); (1, 1); (3, 2); (1, 3); (2, 4); (3, 5); (1, 6)]
  = [(1, 1); (1, 3); (1, 6); (2, 4); (3, 0); (3, 2); (3, 5)].
Proof. reflexivity. Qed.

(** * Further properties of the inline functions *)

(** ** The inverse of the hash *)





Lemma quot_below (a b n : Z) : 0 < b → 0 ≤ a < n * b → 0 ≤ a ÷ b < n.
Proof.
  intros Hb Ha. rewrite Z.quot_div_nonneg by lia. split.
  - apply Z.div_pos; lia.
  - apply Z.div_lt_upper_bound; lia.
Qed.

(** X5.  Outside the range the hash wraps into the neighbouring row, in every
    dimension: the cell one past the last along x is out of range and has the
    hash of the first cell of the next row, and the cell one before the first
    along x is out of range and has the hash of the last cell of the previous
    row. *)
Theorem toHash_wraps_rows (g : Grid) (iy iz : Z) :
  ¬ in_range g (grid_number0 g, iy, iz) ∧
  toHash_triple g (grid_number0 g, iy, iz) = toHash_triple g (0, iy + 1, iz) ∧
  ¬ in_range g (-1, iy + 1, iz) ∧
  toHash_triple g (-1, iy + 1, iz)
  = toHash_triple g (grid_number0 g - 1, iy, iz).
Proof.
  unfold in_range, toHash_triple, toHash, toHash2.
  repeat split; try (destruct (dimension g =? 2); lia); intros (? & _); lia.
Qed.

Lemma toHash_in_int_witness :
  in_int (toHash (grid_of_counts 3 (1000, 1000, 1000)) 999 999 999).
Proof.
  apply (toHash_in_int (grid_of_counts 3 (1000, 1000, 1000)) 999 999 999).
  - cbn. lia.
  - cbn. lia.
  - unfold int_max. cbn. lia.
Defined.

(** ** The hash and the cell of a position *)




Lemma inject_Z_lt_succ (n m : Z) :
  (inject_Z n - 1 < inject_Z m)%Q → n ≤ m.
Proof.
  unfold Qlt, Qminus, Qplus, Qopp, inject_Z. cbn. lia.
Qed.

Lemma is_ceiling_unique (n : Z) (q : Q) : is_ceiling n q → Qceiling q = n.
Proof.
  intros [Hlo Hhi]. pose proof (ceil_to_int_is_ceiling q) as [Hlo' Hhi'].
  unfold ceil_to_int in *. apply Z.le_antisymm.
  - apply inject_Z_lt_succ. eapply Qlt_le_trans; [exact Hlo'|exact Hhi].
  - apply inject_Z_lt_succ. eapply Qlt_le_trans; [exact Hlo|exact Hhi'].
Qed.

(** ** The bounds and the particles *)

Lemma contribution_of_valid (g : Grid) (j : nat) (c : Vector3d) (k : nat) :
  coordinates g !! j = Some c → valid_coordinates g !! j = Some true →
  coeff c k ∈ contributions g k.
Proof.
  intros Hc Hv. apply list_elem_of_lookup. exists j. unfold contributions.
  by rewrite lookup_zip_with, Hc, Hv.
Qed.

(** X10.  The bounds enclose every valid particle: along every axis the
    coordinate of a valid column lies between the lower and the upper bound,
    whatever the masked-out columns hold. *)
Theorem bounds_enclose_valid (g : Grid) (j : nat) (c hi lo : Vector3d) :
  length (coordinates g) = length (valid_coordinates g) →
  getMaxCoordinates g = Ok hi → getMinCoordinates g = Ok lo →
  coordinates g !! j = Some c → valid_coordinates g !! j = Some true →
  ∀ k, (coeff lo k <= coeff c k)%Q ∧ (coeff c k <= coeff hi k)%Q.
Proof.
  intros Hlen Hhi Hlo Hc Hv k.
  destruct (bounds_are_extrema g Hlen) as (hi' & lo' & Hhi' & Hlo' & Hext).
  { intros Hnil. by rewrite Hnil in Hc. }
  assert (hi' = hi) as -> by congruence. assert (lo' = lo) as -> by congruence.
  destruct (Hext k) as [[_ Hub] [_ Hlb]].
  pose proof (contribution_of_valid g j c k Hc Hv) as Hin.
  split; [by apply Hlb|by apply Hub].
Qed.

Lemma bounds_enclose_valid_witness :
  (coeff (Vec3 (-1) 0 0) 0 <= coeff (Vec3 (-1) 2 3) 0)%Q ∧
  (coeff (Vec3 (-1) 2 3) 0 <= coeff (Vec3 0 2 3) 0)%Q.
Proof.
  apply (bounds_enclose_valid
           (grid_of_particles 3 [Vec3 (-1) 2 3; Vec3 5 5 5] [true; false])
           0 (Vec3 (-1) 2 3) (Vec3 0 2 3) (Vec3 (-1) 0 0));
    reflexivity.
Defined.

(** X11.  When no column is masked out, the bounds are the maximum and the
    minimum of the coordinates themselves, along every axis. *)
Theorem bounds_exact_when_all_valid (g : Grid) :
  length (coordinates g) = length (valid_coordinates g) →
  coordinates g ≠ [] →
  false ∉ valid_coordinates g →
  ∃ hi lo,
    getMaxCoordinates g = Ok hi ∧ getMinCoordinates g = Ok lo ∧
    ∀ k, is_max (coeff hi k) (row k (coordinates g)) ∧
         is_min (coeff lo k) (row k (coordinates g)).
Proof.
  intros Hlen Hne Hall.
  destruct (bounds_are_extrema g Hlen Hne) as (hi & lo & Hhi & Hlo & Hext).
  exists hi, lo. split; [done|]. split; [done|]. intros k.
  assert (contributions g k = row k (coordinates g)) as <-; [|apply Hext].
  unfold contributions, row. revert Hlen Hall.
  generalize (valid_coordinates g). clear.
  induction (coordinates g) as [|c cols IH]; intros [|b mask] Hlen Hall;
    try discriminate; [done|].
  cbn. destruct b; [|exfalso; apply Hall; by left].
  f_equal. apply IH; [by injection Hlen|].
  intros Hin. apply Hall. by right.
Qed.

Lemma bounds_exact_when_all_valid_witness :
  ∃ hi lo,
    getMaxCoordinates
      (grid_of_particles 3 [Vec3 1 2 3; Vec3 5 (-5) 4] [true; true]) = Ok hi ∧
    getMinCoordinates
      (grid_of_particles 3 [Vec3 1 2 3; Vec3 5 (-5) 4] [true; true]) = Ok lo ∧
    is_max (vx hi) [1%Q; 5%Q] ∧ is_min (vx lo) [1%Q; 5%Q].
Proof.
  destruct (bounds_exact_when_all_valid
              (grid_of_particles 3 [Vec3 1 2 3; Vec3 5 (-5) 4] [true; true]))
    as (hi & lo & Hhi & Hlo & Hext).
  - reflexivity.
  - discriminate.
  - cbn. intros Hin. apply elem_of_cons in Hin as [Hin|Hin]; [discriminate|].
    apply elem_of_cons in Hin as [Hin|Hin]; [discriminate|].
    by apply elem_of_nil in Hin.
  - exists hi, lo. split; [exact Hhi|]. split; [exact Hlo|].
    exact (Hext 0%nat).
Defined.

(** X12.  When every column is masked out, both bounds are the zero vector,
    wherever the particles are: the bounds of a grid without a valid particle
    are defined, and they are the origin. *)
Theorem bounds_zero_when_all_masked (g : Grid) :
  length (coordinates g) = length (valid_coordinates g) →
  coordinates g ≠ [] →
  true ∉ valid_coordinates g →
  ∃ hi lo,
    getMaxCoordinates g = Ok hi ∧ getMinCoordinates g = Ok lo ∧
    vec_eq hi (Vec3 0 0 0) ∧ vec_eq lo (Vec3 0 0 0).
Proof.
  intros Hlen Hne Hnone.
  destruct (bounds_are_extrema g Hlen Hne) as (hi & lo & Hhi & Hlo & Hext).
  exists hi, lo. split; [done|]. split; [done|].
  assert (∀ k x, x ∈ contributions g k → x = 0%Q) as Hzero.
  { intros k x Hx. apply contributions_elem in Hx as [Hx|[-> _]]; [|done..].
    exfalso. apply list_elem_of_fmap in Hx as ([c b] & _ & Hcb).
    apply list_elem_of_filter in Hcb as [Hb Hcb]. cbn in Hb. subst b.
    apply Hnone. apply elem_of_zip_r in Hcb. exact Hcb. }
  assert (∀ k, (coeff hi k == 0)%Q ∧ (coeff lo k == 0)%Q) as Hk.
  { intros k. destruct (Hext k) as [[(x & Hx & Ex) _] [(y & Hy & Ey) _]].
    rewrite <- Ex, <- Ey, (Hzero k x Hx), (Hzero k y Hy). done. }
  split; repeat split;
    first [apply (Hk 0%nat) | apply (Hk 1%nat) | apply (Hk 2%nat)].
Qed.

Lemma bounds_zero_when_all_masked_witness :
  ∃ hi lo,
    getMaxCoordinates
      (grid_of_particles 3 [Vec3 1 2 3; Vec3 5 (-5) 4] [false; false]) = Ok hi ∧
    getMinCoordinates
      (grid_of_particles 3 [Vec3 1 2 3; Vec3 5 (-5) 4] [false; false]) = Ok lo ∧
    vec_eq hi (Vec3 0 0 0) ∧ vec_eq lo (Vec3 0 0 0).
Proof.
  apply (bounds_zero_when_all_masked
           (grid_of_particles 3 [Vec3 1 2 3; Vec3 5 (-5) 4] [false; false])).
  - reflexivity.
  - discriminate.
  - cbn. intros Hin. apply elem_of_cons in Hin as [Hin|Hin]; [discriminate|].
    apply elem_of_cons in Hin as [Hin|Hin]; [discriminate|].
    by apply elem_of_nil in Hin.
Defined.

(** * Properties of the evaluation on the machine *)

(** ** Wrap-around *)

Lemma wrap_in_int (z : Z) : in_int (Int32.wrap z).
Proof.
  unfold in_int, int_min, int_max, Int32.wrap.
  pose proof (Z.mod_pos_bound (z + 2 ^ 31) (2 ^ 32)). lia.
Qed.

Lemma wrap_small (z : Z) : in_int z → Int32.wrap z = z.
Proof.
  unfold in_int, int_min, int_max, Int32.wrap. intros Hz.
  rewrite Z.mod_small by lia. lia.
Qed.

Lemma wrap_shift (z k : Z) : Int32.wrap (z + k * 2 ^ 32) = Int32.wrap z.
Proof.
  unfold Int32.wrap.
  replace (z + k * 2 ^ 32 + 2 ^ 31) with (z + 2 ^ 31 + k * 2 ^ 32) by lia.
  by rewrite Z.mod_add.
Qed.

Lemma wrap_decomp (z : Z) : ∃ k, Int32.wrap z = z + k * 2 ^ 32.
Proof.
  exists (- ((z + 2 ^ 31) / 2 ^ 32)). unfold Int32.wrap.
  pose proof (Z.div_mod (z + 2 ^ 31) (2 ^ 32)). lia.
Qed.

Lemma wrap_add_l (a b : Z) : Int32.wrap (Int32.wrap a + b) = Int32.wrap (a + b).
Proof.
  destruct (wrap_decomp a) as [k ->].
  replace (a + k * 2 ^ 32 + b) with (a + b + k * 2 ^ 32) by lia.
  apply wrap_shift.
Qed.

Lemma wrap_add_r (a b : Z) : Int32.wrap (a + Int32.wrap b) = Int32.wrap (a + b).
Proof. rewrite Z.add_comm, wrap_add_l. f_equal. lia. Qed.

Lemma wrap_mul_l (a b : Z) : Int32.wrap (Int32.wrap a * b) = Int32.wrap (a * b).
Proof.
  destruct (wrap_decomp a) as [k ->].
  replace ((a + k * 2 ^ 32) * b) with (a * b + k * b * 2 ^ 32) by lia.
  apply wrap_shift.
Qed.

(** On the machine the hash is the exact hash, wrapped into the range of
    [int]. *)
Lemma Int32_toHash_wrap (g : Grid) (x y z : Z) :
  Int32.toHash g x y z = Int32.wrap (toHash g x y z).
Proof.
  unfold Int32.toHash, Int32.toHash2, toHash, toHash2, Int32.add, Int32.mul.
  destruct (dimension g =? 2).
  - by rewrite wrap_add_r.
  - destruct (wrap_decomp (y * grid_number0 g)) as [k1 ->].
    destruct (wrap_decomp (z * grid_number1 g)) as [k2 ->].
    rewrite wrap_add_r, wrap_add_l.
    rewrite <- (wrap_shift (x + y * grid_number0 g
                            + z * grid_number1 g * grid_number0 g)
                  (k1 + k2 * grid_number0 g)).
    f_equal. lia.
Qed.

(** On a grid whose number of cells fits an [int], the machine hashes an
    in-range triple as the exact evaluation does, to a value below the number
    of cells. *)
Lemma Int32_toHash_exact (g : Grid) (c : Z * Z * Z) :
  in_range g c → cell_total g ≤ int_max →
  Int32.toHash_triple g c = toHash_triple g c ∧
  0 ≤ toHash_triple g c < cell_total g.
Proof.
  destruct c as [[x y] z]. intros Hr Hfit.
  assert (0 ≤ toHash g x y z < cell_total g) as Hh.
  { revert Hr. unfold in_range, toHash, toHash2, cell_total.
    intros (Hx & Hy & Hz).
    pose proof (offset_in_plane x y _ _ Hx Hy) as Hlow.
    destruct (Z.eqb_spec (dimension g) 2) as [Hd|Hd]; [done|].
    specialize (Hz Hd).
    pose proof (offset_in_plane _ z _ _ Hlow Hz). lia. }
  split; [|done]. cbn. rewrite Int32_toHash_wrap. apply wrap_small.
  unfold in_int, int_min. lia.
Qed.

Lemma Int32_div_exact (a b : Z) : 0 < b → Int32.div a b = Ok (a ÷ b).
Proof.
  intros Hb. unfold Int32.div.
  destruct (Z.eqb_spec b 0); [lia|].
  destruct (Z.eqb_spec b (-1)); [lia|]. by rewrite andb_false_r.
Qed.

Lemma Int32_rem_exact (a b : Z) : 0 < b → Int32.rem a b = Ok (Z.rem a b).
Proof.
  intros Hb. unfold Int32.rem.
  destruct (Z.eqb_spec b 0); [lia|].
  destruct (Z.eqb_spec b (-1)); [lia|]. by rewrite andb_false_r.
Qed.

(** With positive cell counts whose product fits an [int], the machine
    inverts a hash as the exact evaluation does. *)
Lemma Int32_toIndex3_exact (g : Grid) (hash : Z) :
  0 < grid_number0 g →
  (dimension g ≠ 2 →
   0 < grid_number1 g ∧ grid_number1 g * grid_number0 g ≤ int_max) →
  Int32.toIndex3 g hash = toIndex3 g hash.
Proof.
  intros H0 H1. unfold Int32.toIndex3, Int32.toIndex2, toIndex3.
  destruct (Z.eqb_spec (dimension g) 2) as [Hd|Hd].
  - rewrite toIndex2_ok by lia.
    by rewrite Int32_div_exact, Int32_rem_exact.
  - destruct (H1 Hd) as [Hy Hfit].
    assert (0 < grid_number1 g * grid_number0 g) as HM
      by (apply Z.mul_pos_pos; lia).
    unfold Int32.mul. rewrite wrap_small by (unfold in_int, int_min; lia).
    rewrite !Int32_div_exact, !Int32_rem_exact by done. cbn.
    rewrite !Int32_div_exact, !Int32_rem_exact by done. cbn.
    rewrite !int_div_ok, !int_mod_ok by lia. cbn.
    by rewrite !int_div_ok, !int_mod_ok by lia.
Qed.

(** ** The hash on the machine *)

Lemma plane_fits (nz m : Z) : 0 < nz → 0 < m → nz * m ≤ int_max → m ≤ int_max.
Proof. intros Hz Hm Hfit. nia. Qed.

(** C5, as the code has it.  [toHash(ix, iy, iz)] is the [int] value of
    [ix + iy*Nx + iz*Nx*Ny] in three dimensions and of [ix + iy*Nx], without
    any z term, in two dimensions: the number itself whenever it lies in the
    range of [int], and the number wrapped into that range otherwise. *)
Theorem toHash_int_linearization (g : Grid) (ix iy iz : Z) :
  (dimension g = 3 →
     Int32.toHash g ix iy iz
     = Int32.wrap (ix + iy * grid_number0 g
                   + iz * grid_number0 g * grid_number1 g) ∧
     (in_int (ix + iy * grid_number0 g + iz * grid_number0 g * grid_number1 g) →
      Int32.toHash g ix iy iz
      = ix + iy * grid_number0 g + iz * grid_number0 g * grid_number1 g)) ∧
  (dimension g = 2 →
     Int32.toHash g ix iy iz = Int32.wrap (ix + iy * grid_number0 g) ∧
     (in_int (ix + iy * grid_number0 g) →
      Int32.toHash g ix iy iz = ix + iy * grid_number0 g)).
Proof.
  rewrite Int32_toHash_wrap. unfold toHash, toHash2.
  split; intros Hd; rewrite Hd; cbn.
  - replace (ix + iy * grid_number0 g + iz * grid_number1 g * grid_number0 g)
      with (ix + iy * grid_number0 g + iz * grid_number0 g * grid_number1 g)
      by lia.
    split; [done|]. apply wrap_small.
  - split; [done|]. apply wrap_small.
Qed.

Lemma toHash_int_linearization_witness :
  Int32.toHash (grid_of_counts 3 (4, 5, 6)) 1 2 3 = 1 + 2 * 4 + 3 * 4 * 5 ∧
  Int32.toHash (grid_of_counts 2 (4, 5, 6)) 1 2 3 = 1 + 2 * 4.
Proof.
  split.
  - apply (proj1 (toHash_int_linearization (grid_of_counts 3 (4, 5, 6)) 1 2 3)).
    + reflexivity.
    + unfold in_int, int_min, int_max. cbn. lia.
  - apply (proj2 (toHash_int_linearization (grid_of_counts 2 (4, 5, 6)) 1 2 3)).
    + reflexivity.
    + unfold in_int, int_min, int_max. cbn. lia.
Defined.

(** C5, as it is worded, fails.  On a grid of 100000 x 100000 x 1 cells the
    triple (0, 30000, 0) has [ix + iy*Nx + iz*Nx*Ny = 3000000000], which no
    [int] holds; [toHash] returns -1294967296. *)
Lemma toHash_int_overflow :
  let g := grid_of_counts 3 (100000, 100000, 1) in
  in_int 0 ∧ in_int 30000 ∧ in_int 100000 ∧ in_int 1 ∧
  0 + 30000 * grid_number0 g + 0 * grid_number0 g * grid_number1 g
  = 3000000000 ∧
  Int32.toHash g 0 30000 0 = -1294967296.
Proof.
  cbn zeta. unfold in_int, int_min, int_max.
  repeat split; try reflexivity; try lia; try discriminate.
Qed.

(** C6, as the code has it.  On a grid whose number of cells fits an [int],
    two in-range triples that differ on an axis that takes part (x or y in two
    dimensions; x, y or z in three) have different hashes, and
    [toIndex(hash, ...)] applied to the hash of an in-range triple gives back
    the triple in three dimensions and the triple with z index 0 in two
    dimensions. *)
Theorem toHash_int_injective_on_range (g : Grid) (c1 c2 : Z * Z * Z) :
  in_range g c1 → in_range g c2 → cell_total g ≤ int_max →
  (participating g c1 ≠ participating g c2 →
   Int32.toHash_triple g c1 ≠ Int32.toHash_triple g c2) ∧
  (dimension g ≠ 2 →
   Int32.toIndex3 g (Int32.toHash_triple g c1) = Ok c1) ∧
  (dimension g = 2 →
   Int32.toIndex3 g (Int32.toHash_triple g c1) = Ok (c1.1.1, c1.1.2, 0)).
Proof.
  intros H1 H2 Hfit.
  destruct (Int32_toHash_exact g c1 H1 Hfit) as [E1 B1].
  destruct (Int32_toHash_exact g c2 H2 Hfit) as [E2 _].
  rewrite E1, E2.
  assert (Int32.toIndex3 g (toHash_triple g c1) = Ok (participating g c1))
    as R1.
  { rewrite Int32_toIndex3_exact; [by apply toIndex3_toHash| |].
    - destruct c1 as [[x y] z]. destruct H1 as (Hx & _). lia.
    - intros Hd. destruct c1 as [[x y] z]. destruct H1 as (Hx & Hy & Hz).
      specialize (Hz Hd). split; [lia|].
      unfold cell_total in Hfit.
      destruct (Z.eqb_spec (dimension g) 2); [done|].
      apply (plane_fits (grid_number2 g)); [lia| |done].
      apply Z.mul_pos_pos; lia. }
  pose proof (toIndex3_toHash g c2 H2) as R2.
  split; [|split].
  - intros Hne Heq. pose proof (toIndex3_toHash g c1 H1) as R1'.
    rewrite Heq, R2 in R1'. congruence.
  - intros Hd. rewrite R1. destruct c1 as [[x y] z]. unfold participating.
    by destruct (Z.eqb_spec (dimension g) 2).
  - intros Hd. rewrite R1. destruct c1 as [[x y] z]. unfold participating.
    by rewrite Hd.
Qed.

Lemma toHash_int_injective_on_range_witness :
  Int32.toHash_triple (grid_of_counts 3 (4, 5, 6)) (1, 2, 3)
    ≠ Int32.toHash_triple (grid_of_counts 3 (4, 5, 6)) (1, 2, 4) ∧
  Int32.toIndex3 (grid_of_counts 3 (4, 5, 6))
    (Int32.toHash_triple (grid_of_counts 3 (4, 5, 6)) (1, 2, 3)) = Ok (1, 2, 3).
Proof.
  assert (in_range (grid_of_counts 3 (4, 5, 6)) (1, 2, 3)) as H1
    by (cbn; lia).
  assert (in_range (grid_of_counts 3 (4, 5, 6)) (1, 2, 4)) as H2
    by (cbn; lia).
  assert (cell_total (grid_of_counts 3 (4, 5, 6)) ≤ int_max) as Hfit
    by (unfold int_max; cbn; lia).
  destruct (toHash_int_injective_on_range _ _ _ H1 H2 Hfit) as (Hinj & Hrt & _).
  split.
  - apply Hinj. cbn. congruence.
  - apply Hrt. cbn. lia.
Defined.

(** C6, as it is worded, fails on a grid with more cells than an [int] can
    count.  With 65536 x 65536 x 2 cells the distinct in-range triples
    (0, 0, 0) and (0, 0, 1) both hash to 0; with 65536 x 65536 x 1 cells the
    inverse of the hash of the in-range triple (5, 0, 0) divides by
    [grid_number[1] * grid_number[0]], which is 0 as an [int], and traps. *)
Lemma toHash_int_collision :
  let g := grid_of_counts 3 (65536, 65536, 2) in
  let g' := grid_of_counts 3 (65536, 65536, 1) in
  in_range g (0, 0, 0) ∧ in_range g (0, 0, 1) ∧
  (0, 0, 0) ≠ (0, 0, 1) ∧
  Int32.toHash_triple g (0, 0, 0) = Int32.toHash_triple g (0, 0, 1) ∧
  in_range g' (5, 0, 0) ∧
  Int32.toIndex3 g' (Int32.toHash_triple g' (5, 0, 0)) = Fault DivisionByZero.
Proof.
  cbn zeta. split; [cbn; lia|]. split; [cbn; lia|]. split; [congruence|].
  split; [reflexivity|]. split; [cbn; lia|]. reflexivity.
Qed.

(** ** The inverse of the hash on the machine *)

Lemma rem_above_int_min (a b : Z) :
  b ≠ 0 → int_min < a → int_min < Z.rem a b.
Proof.
  unfold int_min. intros Hb Ha.
  destruct (Z.le_gt_cases 0 a) as [Hpos|Hneg].
  - pose proof (Z.rem_nonneg a b Hb Hpos). lia.
  - assert (Z.abs (Z.rem a b) ≤ Z.abs a); [|lia].
    rewrite <- Z.rem_abs by done. apply Z.rem_le; lia.
Qed.

Lemma Int32_div_ok (a b : Z) :
  b ≠ 0 → int_min < a → Int32.div a b = Ok (a ÷ b).
Proof.
  intros Hb Ha. unfold Int32.div.
  destruct (Z.eqb_spec b 0); [done|].
  destruct (Z.eqb_spec a int_min); [lia|done].
Qed.

Lemma Int32_rem_ok (a b : Z) :
  b ≠ 0 → int_min < a → Int32.rem a b = Ok (Z.rem a b).
Proof.
  intros Hb Ha. unfold Int32.rem.
  destruct (Z.eqb_spec b 0); [done|].
  destruct (Z.eqb_spec a int_min); [lia|done].
Qed.

(** X2.  For a hash above [INT_MIN], [toIndex(hash, dx, dy, dz)] traps, with a
    division by zero, exactly when [grid_number[0]] is 0 or, outside two
    dimensions, the [int] product [grid_number[1] * grid_number[0]] is 0,
    which it also is when the product wraps to 0 (65536 * 65536); it returns
    in every other case.  [grid_number[2]] and, in two dimensions,
    [grid_number[1]] play no part. *)
Theorem toIndex3_int_traps (g : Grid) (hash : Z) :
  int_min < hash →
  (Int32.toIndex3 g hash = Fault DivisionByZero ↔
   grid_number0 g = 0 ∨
   (dimension g ≠ 2 ∧ Int32.mul (grid_number1 g) (grid_number0 g) = 0)) ∧
  ((∃ c, Int32.toIndex3 g hash = Ok c) ↔
   grid_number0 g ≠ 0 ∧
   (dimension g = 2 ∨ Int32.mul (grid_number1 g) (grid_number0 g) ≠ 0)).
Proof.
  intros Hh. unfold Int32.toIndex3, Int32.toIndex2.
  destruct (Z.eqb_spec (dimension g) 2) as [Hd|Hd].
  - destruct (decide (grid_number0 g = 0)) as [H0|H0].
    + unfold Int32.div. rewrite H0. cbn.
      split; split; try tauto; try done. by intros [c ?].
    + rewrite Int32_div_ok, Int32_rem_ok by done. cbn.
      split; split; try done; try tauto. by eexists.
  - set (M := Int32.mul (grid_number1 g) (grid_number0 g)).
    destruct (decide (M = 0)) as [HM|HM].
    + unfold Int32.div at 1. rewrite HM. cbn.
      split; split; try tauto; try done. by intros [c ?].
    + rewrite !Int32_div_ok, !Int32_rem_ok by done. cbn.
      pose proof (rem_above_int_min hash M HM Hh) as Hr.
      destruct (decide (grid_number0 g = 0)) as [H0|H0].
      * unfold Int32.div. rewrite H0. cbn.
        split; split; try tauto; try done. by intros [c ?].
      * rewrite !Int32_div_ok, !Int32_rem_ok by done. cbn.
        split; split; try done; try tauto. by eexists.
Qed.

Lemma toIndex3_int_traps_witness :
  Int32.toIndex3 (grid_of_counts 3 (65536, 65536, 1)) 5 = Fault DivisionByZero.
Proof.
  apply (proj1 (toIndex3_int_traps (grid_of_counts 3 (65536, 65536, 1)) 5
                  ltac:(reflexivity))).
  right. split; [discriminate|reflexivity].
Defined.

(** X3.  On a grid with positive cell counts along x and y whose number of
    cells fits an [int], the inverse of a hash in [0, number of cells) is a
    triple in range. *)
Theorem toIndex3_int_in_range (g : Grid) (hash : Z) :
  0 < grid_number0 g → 0 < grid_number1 g →
  cell_total g ≤ int_max →
  0 ≤ hash < cell_total g →
  ∃ c, Int32.toIndex3 g hash = Ok c ∧ in_range g c.
Proof.
  unfold cell_total. intros H0 H1 Hfit Hh.
  rewrite Int32_toIndex3_exact; [|done|].
  2: { intros Hd. split; [done|].
       destruct (Z.eqb_spec (dimension g) 2); [done|].
       assert (0 < grid_number1 g * grid_number0 g) as HM
         by (apply Z.mul_pos_pos; lia).
       apply (plane_fits (grid_number2 g)); [|done|done].
       destruct (Z.le_gt_cases (grid_number2 g) 0) as [Hz|Hz]; [|done].
       assert (grid_number2 g * (grid_number1 g * grid_number0 g) ≤ 0)
         by (apply Z.mul_nonpos_nonneg; lia). lia. }
  destruct (Z.eqb_spec (dimension g) 2) as [Hd|Hd].
  - exists (Z.rem hash (grid_number0 g), hash ÷ grid_number0 g, 0). split.
    + unfold toIndex3. rewrite Hd. cbn. by rewrite toIndex2_ok by lia.
    + split; [apply Z.rem_bound_pos; lia|]. split; [by apply quot_below|done].
  - rewrite toIndex3_ok by lia. eexists. split; [done|].
    assert (0 < grid_number1 g * grid_number0 g) as HM
      by (apply Z.mul_pos_pos; lia).
    pose proof (Z.rem_bound_pos hash _ (proj1 Hh) HM) as Hr.
    split; [apply Z.rem_bound_pos; lia|].
    split; [by apply quot_below|]. intros _. by apply quot_below.
Qed.

Lemma toIndex3_int_in_range_witness :
  ∃ c, Int32.toIndex3 (grid_of_counts 3 (4, 5, 6)) 119 = Ok c ∧
       in_range (grid_of_counts 3 (4, 5, 6)) c.
Proof.
  apply (toIndex3_int_in_range (grid_of_counts 3 (4, 5, 6)) 119);
    unfold int_max; cbn; lia.
Defined.

(** X4.  On a grid whose number of cells fits an [int], the hash of a triple
    in range lies in [0, number of cells). *)
Theorem toHash_int_below_cell_total (g : Grid) (c : Z * Z * Z) :
  in_range g c → cell_total g ≤ int_max →
  0 ≤ Int32.toHash_triple g c < cell_total g.
Proof.
  intros Hr Hfit. destruct (Int32_toHash_exact g c Hr Hfit) as [-> Hb].
  exact Hb.
Qed.

Lemma toHash_int_below_cell_total_witness :
  0 ≤ Int32.toHash_triple (grid_of_counts 3 (4, 5, 6)) (3, 4, 5)
    < cell_total (grid_of_counts 3 (4, 5, 6)).
Proof.
  apply (toHash_int_below_cell_total (grid_of_counts 3 (4, 5, 6)) (3, 4, 5)).
  - cbn. lia.
  - unfold int_max. cbn. lia.
Defined.

(** ** The cell of a position in double arithmetic *)

(** Along one axis the cell index is the ceiling of the scaled offset, when
    that is finite and an [int] holds the ceiling; otherwise there is no
    index. *)
Lemma Double_axis_index_Ok (g : Grid) (vec : Vector3d) (k : nat) (n : Z) :
  Double.axis_index g vec k = Ok n ↔ rounded_cell g vec k n.
Proof.
  unfold Double.axis_index, rounded_cell, Double.ceil_to_int.
  destruct (Double.scaled_offset g vec k) as [q|].
  - case_bool_decide as Hn; split.
    + intros [= <-]. exists q. split; [done|].
      split; [apply ceil_to_int_is_ceiling|done].
    + intros (q' & [= <-] & Hc & _). by rewrite (is_ceiling_unique n q Hc).
    + discriminate.
    + intros (q' & [= <-] & Hc & Hin).
      rewrite (is_ceiling_unique n q Hc) in Hn. done.
  - split; [discriminate|]. by intros (q & ? & _).
Qed.

(** C4, as the code has it.  [toIndex] returns the cell [(dx, dy, dz)] exactly
    when, along x and y, and along z in three dimensions, the index is the
    ceiling of the double [(coordinate - lower_bounds) / grid_width], the
    subtraction and the division each rounded to the nearest double, and an
    [int] holds that ceiling; outside three dimensions the z index is 0. *)
Theorem toIndex_double_ceiling (g : Grid) (vec : Vector3d) (dx dy dz : Z) :
  Double.toIndex g vec = Ok (dx, dy, dz) ↔
  rounded_cell g vec 0 dx ∧ rounded_cell g vec 1 dy ∧
  (if dimension g =? 3 then rounded_cell g vec 2 dz else dz = 0).
Proof.
  rewrite <- !Double_axis_index_Ok. unfold Double.toIndex. split.
  - intros H.
    apply bind_Ok in H as (x & Ex & H). apply bind_Ok in H as (y & Ey & H).
    apply bind_Ok in H as (z & Ez & H). injection H as -> -> ->.
    split; [done|]. split; [done|].
    destruct (dimension g =? 3); [|by injection Ez].
    by apply Double_axis_index_Ok.
  - intros (-> & -> & Hz). cbn [mbind result_bind].
    destruct (dimension g =? 3); [|by subst dz].
    apply Double_axis_index_Ok in Hz. by rewrite Hz.
Qed.

(** C4, as it is worded, fails in two ways.  With the doubles nearest to 0.4,
    -0.8 and 0.1 as coordinate, lower bound and width, the quotient of the
    offset by the width is exactly 12, and [toIndex] returns 13: the
    difference rounds up to 1.2000000000000002 and the quotient to
    12.000000000000002.  With the coordinate 10000000000 on a grid of width 1
    from 0 the ceiling is 10000000000, which no [int] holds, and [toIndex]
    has no defined result. *)
Lemma toIndex_double_not_exact_ceiling :
  let x := Double.nearest (2 # 5) in
  let lb := Double.nearest (- 4 # 5) in
  let w := Double.nearest (1 # 10) in
  (x = 3602879701896397 # 9007199254740992 ∧
   lb = - 3602879701896397 # 4503599627370496 ∧
   w = 3602879701896397 # 36028797018963968)%Q ∧
  Qceiling ((x - lb) / w) = 12 ∧
  Double.toIndex (grid_of_frame 2 (Vec3 lb 0 0) w) (Vec3 x 0 0)
  = Ok (13, 0, 0) ∧
  Qceiling ((10000000000 - 0) / 1) = 10000000000 ∧
  Double.toIndex (grid_of_frame 2 (Vec3 0 0 0) 1) (Vec3 10000000000 0 0)
  = Fault ConversionOverflow.
Proof.
  cbn zeta. repeat split; vm_compute; reflexivity.
Qed.

(** Rounding can put two positions that are no farther apart than the width
    two cells apart: with the width 0.7 and the lower bound
    2.0999999999999996, the positions 28 and 28.7 differ by less than the
    width and fall in the cells 37 and 39. *)
Example rounding_skips_a_cell :
  let w := Double.nearest (7 # 10) in
  let lb := Double.nearest (20999999999999996 # 10000000000000000) in
  let g := grid_of_frame 2 (Vec3 lb 0 0) w in
  (Double.nearest (287 # 10) - 28 <= w)%Q ∧
  Double.toIndex g (Vec3 28 0 0) = Ok (37, 0, 0) ∧
  Double.toIndex g (Vec3 (Double.nearest (287 # 10)) 0 0) = Ok (39, 0, 0).
Proof.
  cbn zeta. repeat split; vm_compute; (reflexivity || discriminate).
Qed.
